(** * SoundAnalizer: threshold evaluation, hysteresis state machine and
      per-source polling worker

    A shallow embedding of [rules/thresholds.py], [rules/state_machine.py]
    and [workers/device_worker.py], together with the properties the
    specification states about them.

    Modelling conventions.
    - Python [float] values (measurements, thresholds, timestamps) are
      rationals [Q]; SQLite cannot store NaN, and infinities are not modelled.
      Comparisons are the decidable ones of [QArith]. The arithmetic of the
      aggregator, the sum and the division of [_safe_avg], is rounded to
      binary64 as the interpreter rounds it ([round_float]); the clock and
      window arithmetic, a subtraction and a product by 1000 on epoch
      timestamps, is taken exact.
    - Python [int] values are [Z].
    - [Optional[T]] is [option T]; [None] is [None].
    - A [dict] used as a map is a [gmap]; [d.get(k)] on a dictionary whose
      values may themselves be [None] is [dict_get].
    - [time.time()] is an input of the function that reads it.
    - Calls that can raise (the store) return an [outcome]. *)

From Stdlib Require Import QArith Qpower Qround Qabs Lqa ZArith Sorted.
From stdpp Require Import gmap strings list fin_maps.

Local Open Scope Q_scope.
Local Open Scope string_scope.

(** ** Python values *)

(** [a > b] on numbers. *)
Definition Qgtb (a b : Q) : bool := negb (Qle_bool a b).

(** [a >= b] on numbers. *)
Definition Qgeb (a b : Q) : bool := Qle_bool b a.

(** [a <= b] on numbers. *)
Definition Qleb (a b : Q) : bool := Qle_bool a b.

(** *** Floating-point arithmetic

    A Python [float] is an IEEE 754 binary64 number, and [+] and [/] on
    floats return the exact result rounded to the nearest such number, ties to
    the one with an even significand. *)

(** The nearest integer, ties to the even one. *)
Definition round_half_even (m : Q) : Z :=
  let f := Qfloor m in
  match Qcompare (m - inject_Z f) (1 # 2) with
  | Lt => f
  | Gt => (f + 1)%Z
  | Eq => if Z.even f then f else (f + 1)%Z
  end.

(** The binary exponent of a positive number: the [e] with
    [2 ^ e <= a < 2 ^ (e + 1)]. *)
Definition Qlog2 (a : Q) : Z :=
  let e0 := (Z.log2 (Qnum a) - Z.log2 (Zpos (Qden a)))%Z in
  if Qle_bool (2 ^ e0) a then e0 else (e0 - 1)%Z.

(** The binary64 number nearest to [q]: 53 significant bits, the least
    exponent of a bit being -1074 (subnormal numbers). The exponent is not
    bounded above: overflow to infinity is not modelled. *)
Definition round_float (q : Q) : Q :=
  if Qeq_bool q 0 then 0 else
  let a := Qabs q in
  let p := Z.max (Qlog2 a - 52) (-1074) in
  let v := inject_Z (round_half_even (a / 2 ^ p)) * 2 ^ p in
  Qred (if Qle_bool 0 q then v else - v).

(** [a + b] on floats. *)
Definition float_add (a b : Q) : Q := round_float (a + b).

(** [a / b] on floats, [b] not zero. *)
Definition float_div (a b : Q) : Q := round_float (a / b).

(** [d.get(k)]: [None] when the key is missing or maps to [None]. *)
Definition dict_get (d : gmap string (option Q)) (k : string) : option Q :=
  match d !! k with
  | Some v => v
  | None => None
  end.

(** [any(d.values())] for a dictionary of booleans. *)
Definition any_values (d : gmap string bool) : bool :=
  existsb (fun kv => snd kv) (map_to_list d).

(** The result of a call that may raise. *)
Inductive outcome (A : Type) : Type :=
| Returned (a : A)
| Raised (msg : string).
Arguments Returned {A} a.
Arguments Raised {A} msg.

(** ** Configuration ([env.py]) *)

Record NotifyConfig := {
  include_spectrum : bool;
  include_levels : bool;
  send_recovery : bool
}.

(** The fields of [Config] that the rules and the worker read. *)
Record Config := {
  window_seconds : Z;
  limit_last_u : Z;
  limit_last_a : Z;
  analog_weight_type : option string;
  umik_thr_spl : option Q;
  umik_thr_leq_1s : option Q;
  umik_thr_leq_60s : option Q;
  umik_thr_lmax : option Q;
  analog_thr_spl : option Q;
  analog_thr_leq : option Q;
  analog_thr_lmax : option Q;
  trigger_hold_ms : Z;
  recover_hold_ms : Z;
  cooldown_ms : Z;
  retrigger_gap_ms : Z;
  consecutive_required : Z;
  notify : NotifyConfig;
  umik_thr_bands : gmap string Q
}.

(** ** Data model ([models.py]) *)

(** [Fact]: the aggregate of one window. [src] is a Python string; the
    evaluator has a branch for strings that are neither known source. *)
Record Fact := {
  ts_from : Q;
  ts_to : Q;
  src : string;
  spl_max : option Q;
  lmax_max : option Q;
  leq_1s_avg : option Q;
  leq_60s_last : option Q;
  bands_max : gmap string (option Q);
  leq_avg : option Q;
  exceeded_levels : gmap string bool;
  exceeded_bands : gmap string bool
}.

Inductive EventType := ALERT_EVENT | RECOVERY_EVENT.

(** The [thresholds] dictionary the worker hands to [step]. *)
Record ThresholdsView := {
  tv_levels : gmap string (option Q);
  tv_bands : gmap string Q
}.

Record Event := {
  ev_type : EventType;
  ev_src : string;
  ev_ts_first : Q;
  ev_ts_last : Q;
  ev_levels : gmap string (option Q);
  ev_octaves : gmap string (option Q);
  ev_exceeded_levels : gmap string bool;
  ev_exceeded_bands : gmap string bool;
  ev_thresholds : ThresholdsView;
  ev_samples : Z;
  ev_window_sec : Q
}.

(** ** Threshold evaluator ([rules/thresholds.py]) *)

(** One level block of [check_levels_and_bands]:
    [if thr is not None: d[name] = (val is not None and val > thr)]. *)
Definition set_level (name : string) (thr val : option Q)
    (d : gmap string bool) : gmap string bool :=
  match thr with
  | Some t =>
      <[name := match val with Some v => Qgtb v t | None => false end]> d
  | None => d
  end.

(** One iteration of the band loop:
    [val = fact.bands_max.get(band)], then
    [if val is not None: d[band] = val > thr]. *)
Definition set_band (bands : gmap string (option Q)) (band : string) (thr : Q)
    (d : gmap string bool) : gmap string bool :=
  match dict_get bands band with
  | Some v => <[band := Qgtb v thr]> d
  | None => d
  end.

(** [check_levels_and_bands]: the annotated fact and the warnings logged. *)
Definition check_levels_and_bands (fact : Fact) (config : Config)
    : Fact * list string :=
  let '(levels, bands, log) :=
    if String.eqb (src fact) "UMIK" then
      let l0 : gmap string bool := ∅ in
      let l1 := set_level "spl" (umik_thr_spl config) (spl_max fact) l0 in
      let l2 := set_level "leq_1s" (umik_thr_leq_1s config)
                          (leq_1s_avg fact) l1 in
      let l3 := set_level "leq_60s" (umik_thr_leq_60s config)
                          (leq_60s_last fact) l2 in
      let l4 := set_level "lmax" (umik_thr_lmax config) (lmax_max fact) l3 in
      (l4, map_fold (set_band (bands_max fact)) ∅ (umik_thr_bands config), [])
    else if String.eqb (src fact) "ANALOG" then
      let l0 : gmap string bool := ∅ in
      let l1 := set_level "spl" (analog_thr_spl config) (spl_max fact) l0 in
      let l2 := set_level "leq" (analog_thr_leq config) (leq_avg fact) l1 in
      let l3 := set_level "lmax" (analog_thr_lmax config) (lmax_max fact) l2 in
      (l3, ∅, [])
    else
      (∅, ∅, ["Unknown fact.src: " +:+ src fact])
  in
  ({| ts_from := ts_from fact; ts_to := ts_to fact; src := src fact;
      spl_max := spl_max fact; lmax_max := lmax_max fact;
      leq_1s_avg := leq_1s_avg fact; leq_60s_last := leq_60s_last fact;
      bands_max := bands_max fact; leq_avg := leq_avg fact;
      exceeded_levels := levels; exceeded_bands := bands |}, log).

(** [is_exceeded]: (flag, exceeded_levels, exceeded_bands). *)
Definition is_exceeded (fact : Fact)
    : bool * gmap string bool * gmap string bool :=
  let flag := any_values (exceeded_levels fact)
              || any_values (exceeded_bands fact) in
  (flag, exceeded_levels fact, exceeded_bands fact).

(** ** Hysteresis state machine ([rules/state_machine.py]) *)

Inductive State := NORMAL | ALERT | COOLDOWN.

Record StateMachine := {
  sm_src : string;
  sm_cfg : Config;
  state : State;
  last_transition : Q;
  active_since : option Q;
  recovery_since : option Q;
  _consec_hit : Z;
  _consec_ok : Z;
  _last_alert_at_ms : option Q
}.

(** [StateMachine.__init__]; [t0] is the reading of [time.time()]. *)
Definition StateMachine_init (s : string) (config : Config) (t0 : Q)
    : StateMachine :=
  {| sm_src := s; sm_cfg := config; state := NORMAL; last_transition := t0;
     active_since := None; recovery_since := None;
     _consec_hit := 0; _consec_ok := 0; _last_alert_at_ms := None |}.

(** [_now_ms]; [t] is the reading of [time.time()]. *)
Definition _now_ms (t : Q) : Q := t * 1000.

(** [_win_seconds]: [max(0.0, float(fact.ts_to - fact.ts_from))]. Python's
    [max] keeps its first argument unless a later one is greater. *)
Definition _win_seconds (fact : Fact) : Q :=
  let d := ts_to fact - ts_from fact in
  if Qgtb d 0 then d else 0.

Definition _make_event (sm : StateMachine) (etype : EventType) (fact : Fact)
    (thresholds : ThresholdsView)
    (exceeded_levels exceeded_bands : gmap string bool) : Event :=
  {| ev_type := etype;
     ev_src := sm_src sm;
     ev_ts_first := ts_from fact;
     ev_ts_last := ts_to fact;
     ev_levels :=
       <["leq_avg" := leq_avg fact]>
       (<["leq_60s_last" := leq_60s_last fact]>
       (<["leq_1s_avg" := leq_1s_avg fact]>
       (<["lmax_max" := lmax_max fact]>
       (<["spl_max" := spl_max fact]> ∅))));
     ev_octaves :=
       if String.eqb (sm_src sm) "UMIK" then bands_max fact else ∅;
     ev_exceeded_levels := exceeded_levels;
     ev_exceeded_bands := exceeded_bands;
     ev_thresholds := thresholds;
     ev_samples := 0;
     ev_window_sec := _win_seconds fact |}.

(** The run-length bookkeeping at the head of [step]. *)
Definition update_counters (sm : StateMachine) (flag : bool) (now : Q)
    : StateMachine :=
  if flag then
    {| sm_src := sm_src sm; sm_cfg := sm_cfg sm; state := state sm;
       last_transition := last_transition sm;
       active_since :=
         match active_since sm with None => Some now | Some a => Some a end;
       recovery_since := recovery_since sm;
       _consec_hit := _consec_hit sm + 1;
       _consec_ok := 0;
       _last_alert_at_ms := _last_alert_at_ms sm |}
  else
    {| sm_src := sm_src sm; sm_cfg := sm_cfg sm; state := state sm;
       last_transition := last_transition sm;
       active_since := None;
       recovery_since :=
         match recovery_since sm with None => Some now | Some r => Some r end;
       _consec_hit := 0;
       _consec_ok := _consec_ok sm + 1;
       _last_alert_at_ms := _last_alert_at_ms sm |}.

(** [opt is not None and (now - opt) * 1000.0 >= hold]. *)
Definition held_for (since : option Q) (now : Q) (hold : Z) : bool :=
  match since with
  | Some s => Qgeb ((now - s) * 1000) (inject_Z hold)
  | None => false
  end.

(** [(last is None) or ((now_ms - last) >= gap)]. *)
Definition gap_ok (last : option Q) (now_ms : Q) (gap : Z) : bool :=
  match last with
  | None => true
  | Some l => Qgeb (now_ms - l) (inject_Z gap)
  end.

(** [StateMachine.step]. [t1] and [t2] are the two successive readings of
    [time.time()]: [now = t1] and [now_ms = _now_ms()] from [t2]. Returns the
    machine after the call and the event, if any. *)
Definition step (sm : StateMachine) (t1 t2 : Q) (fact : Fact)
    (thresholds : ThresholdsView) : StateMachine * option Event :=
  let now := t1 in
  let now_ms := _now_ms t2 in
  let '(flag, exceeded_levels, exceeded_bands) := is_exceeded fact in
  let sm1 := update_counters sm flag now in
  let hold_trig := trigger_hold_ms (sm_cfg sm) in
  let hold_rec := recover_hold_ms (sm_cfg sm) in
  let cooldown := cooldown_ms (sm_cfg sm) in
  let need_seq := consecutive_required (sm_cfg sm) in
  let retrigger_gap := retrigger_gap_ms (sm_cfg sm) in
  match state sm1 with
  | NORMAL =>
      let hit_long_enough := held_for (active_since sm1) now hold_trig in
      let enough_seq := (need_seq <=? _consec_hit sm1)%Z in
      let gap := gap_ok (_last_alert_at_ms sm1) now_ms retrigger_gap in
      if flag && hit_long_enough && enough_seq && gap then
        let sm2 :=
          {| sm_src := sm_src sm1; sm_cfg := sm_cfg sm1; state := ALERT;
             last_transition := now;
             active_since := active_since sm1;
             recovery_since := None;
             _consec_hit := _consec_hit sm1; _consec_ok := _consec_ok sm1;
             _last_alert_at_ms := Some now_ms |} in
        let ev := _make_event sm2 ALERT_EVENT fact thresholds
                    exceeded_levels exceeded_bands in
        ({| sm_src := sm_src sm2; sm_cfg := sm_cfg sm2; state := COOLDOWN;
            last_transition := now;
            active_since := active_since sm2;
            recovery_since := recovery_since sm2;
            _consec_hit := _consec_hit sm2; _consec_ok := _consec_ok sm2;
            _last_alert_at_ms := _last_alert_at_ms sm2 |}, Some ev)
      else (sm1, None)
  | ALERT =>
      if negb flag && held_for (recovery_since sm1) now hold_rec then
        let sm2 :=
          {| sm_src := sm_src sm1; sm_cfg := sm_cfg sm1; state := COOLDOWN;
             last_transition := now;
             active_since := active_since sm1;
             recovery_since := recovery_since sm1;
             _consec_hit := _consec_hit sm1; _consec_ok := _consec_ok sm1;
             _last_alert_at_ms := _last_alert_at_ms sm1 |} in
        if send_recovery (notify (sm_cfg sm)) then
          (sm2, Some (_make_event sm2 RECOVERY_EVENT fact thresholds
                        exceeded_levels exceeded_bands))
        else (sm2, None)
      else (sm1, None)
  | COOLDOWN =>
      if Qgeb ((now - last_transition sm1) * 1000) (inject_Z cooldown) then
        ({| sm_src := sm_src sm1; sm_cfg := sm_cfg sm1; state := NORMAL;
            last_transition := now;
            active_since := None;
            recovery_since := None;
            _consec_hit := 0; _consec_ok := 0;
            _last_alert_at_ms := _last_alert_at_ms sm1 |}, None)
      else (sm1, None)
  end.

(** Inputs of one [step] call: the two clock readings, the fact and the
    thresholds dictionary. *)
Record StepInput := {
  si_t1 : Q;
  si_t2 : Q;
  si_fact : Fact;
  si_thresholds : ThresholdsView
}.

Definition step_in (sm : StateMachine) (i : StepInput)
    : StateMachine * option Event :=
  step sm (si_t1 i) (si_t2 i) (si_fact i) (si_thresholds i).

(** A sequence of [step] calls on one machine: the final machine and, per
    call in order, the value of [now_ms] with what the call returned. *)
Fixpoint run_steps (sm : StateMachine) (inputs : list StepInput)
    : StateMachine * list (Q * option Event) :=
  match inputs with
  | [] => (sm, [])
  | i :: rest =>
      let '(sm', ev) := step_in sm i in
      let '(sm'', out) := run_steps sm' rest in
      (sm'', (_now_ms (si_t2 i), ev) :: out)
  end.

(** ** Source worker and aggregator ([workers/device_worker.py]) *)

(** A stored row as the store client returns it: column name to value,
    SQL NULL being [None]. *)
Abbreviation Row := (gmap string (option Q)).

(** [[v for v in values if v is not None]]. *)
Definition present (values : list (option Q)) : list Q := omap id values.

(** Python's [max] of a non-empty list [x :: l]: the first maximal item. *)
Definition py_max (x : Q) (l : list Q) : Q :=
  fold_left (fun m v => if Qgtb v m then v else m) l x.

(** Python's [sum] on floats: the items are added to 0 one after the other,
    left to right, each addition rounded. This is the interpreter up to
    version 3.11; from 3.12 on [sum] compensates the rounding errors of
    floats, which this model does not follow. *)
Definition py_sum (l : list Q) : Q := fold_left float_add l 0.

Definition _safe_max (values : list (option Q)) : option Q :=
  match present values with
  | [] => None
  | x :: l => Some (py_max x l)
  end.

Definition _safe_avg (values : list (option Q)) : option Q :=
  match present values with
  | [] => None
  | x :: l =>
      Some (float_div (py_sum (x :: l))
                      (inject_Z (Z.of_nat (length (x :: l)))))
  end.

(** [[r.get(col) for r in rows]]. *)
Definition column (col : string) (rows : list Row) : list (option Q) :=
  map (fun r => dict_get r col) rows.

(** The loop that computes [leq_60s_last]: the value of the first row, in
    the order given, whose [col] is not [None]. *)
Fixpoint scan_last (col : string) (rows : list Row) : option Q :=
  match rows with
  | [] => None
  | r :: rest =>
      match dict_get r col with
      | Some val => Some val
      | None => scan_last col rest
      end
  end.

(** The octave columns of the spectrum source. *)
Definition BAND_COLUMNS : list string :=
  ["31.5_Hz"; "63.0_Hz"; "125.0_Hz"; "250.0_Hz"; "500.0_Hz";
   "1000.0_Hz"; "2000.0_Hz"; "4000.0_Hz"; "8000.0_Hz"].

(** [DeviceWorker._make_fact]. *)
Definition _make_fact (kind : string) (rows : list Row) (ts_from ts_to : Q)
    : Fact :=
  if String.eqb kind "UMIK" then
    {| ts_from := ts_from; ts_to := ts_to; src := "UMIK";
       spl_max := _safe_max (column "spl" rows);
       lmax_max := _safe_max (column "lmax" rows);
       leq_1s_avg := _safe_avg (column "leq_1s" rows);
       leq_60s_last := scan_last "leq_60s" rows;
       bands_max :=
         fold_left
           (fun bands col => <[col := _safe_max (column col rows)]> bands)
           BAND_COLUMNS ∅;
       leq_avg := None;
       exceeded_levels := ∅; exceeded_bands := ∅ |}
  else
    {| ts_from := ts_from; ts_to := ts_to; src := "ANALOG";
       spl_max := _safe_max (column "spl" rows);
       lmax_max := _safe_max (column "lmax" rows);
       leq_1s_avg := None;
       leq_60s_last := None;
       bands_max := ∅;
       leq_avg := _safe_avg (column "leq" rows);
       exceeded_levels := ∅; exceeded_bands := ∅ |}.

(** The store client as the worker sees it during one poll. *)
Record DBClient := {
  latest_ts : string -> outcome (option Q);
  fetch_umik_window : Q -> Q -> Z -> outcome (list Row);
  fetch_analog_window : Q -> Q -> Z -> option string -> outcome (list Row)
}.

Record DeviceWorker := {
  name : string;
  kind : string;
  cfg : Config;
  fsm : StateMachine;
  _stopped : bool;
  _last_anchor : option Q
}.

(** [DeviceWorker.__init__]; [t0] is the clock reading of the machine's
    constructor. *)
Definition DeviceWorker_init (n k : string) (config : Config) (t0 : Q)
    : DeviceWorker :=
  {| name := n; kind := k; cfg := config;
     fsm := StateMachine_init k config t0;
     _stopped := false; _last_anchor := None |}.

Definition _latest_anchor (w : DeviceWorker) (db : DBClient)
    : outcome (option Q) :=
  latest_ts db (if String.eqb (kind w) "UMIK" then "measurements"
                else "weighted_measurements").

(** The [thresholds_view] dictionary built in [poll]. *)
Definition thresholds_view (w : DeviceWorker) : ThresholdsView :=
  let c := cfg w in
  let umik := String.eqb (kind w) "UMIK" in
  let analog := String.eqb (kind w) "ANALOG" in
  {| tv_levels :=
       <["lmax" := if umik then umik_thr_lmax c else analog_thr_lmax c]>
       (<["leq" := if analog then analog_thr_leq c else None]>
       (<["leq_60s" := if umik then umik_thr_leq_60s c else None]>
       (<["leq_1s" := if umik then umik_thr_leq_1s c else None]>
       (<["spl" := if umik then umik_thr_spl c else analog_thr_spl c]> ∅))));
     tv_bands := if umik then umik_thr_bands c else ∅ |}.

(** What one poll is given from outside: the store, the length of the
    window and the clock readings [step] takes. Whether [notifier.send]
    raises is caught inside [poll] and changes nothing the model returns. *)
Record PollEnv := {
  pe_db : DBClient;
  pe_window_seconds : Q;
  pe_t1 : Q;
  pe_t2 : Q
}.

(** The place where [poll] returned. *)
Inductive PollExit :=
| ExitStopped
| ExitAnchorFailed
| ExitNoData
| ExitAnchorUnchanged
| ExitFetchFailed
| ExitNoRows
| ExitEvaluated.

(** The observable result of one poll: the worker afterwards, where the
    call returned, the anchor it read, the rows it aggregated, the fact it
    built and annotated, and the event it handed to [notifier.send]. *)
Record PollResult := {
  pr_worker : DeviceWorker;
  pr_exit : PollExit;
  pr_anchor : option Q;
  pr_rows : list Row;
  pr_fact : option Fact;
  pr_sent : option Event
}.

Definition set_last_anchor (w : DeviceWorker) (a : Q) : DeviceWorker :=
  {| name := name w; kind := kind w; cfg := cfg w; fsm := fsm w;
     _stopped := _stopped w; _last_anchor := Some a |}.

Definition set_fsm (w : DeviceWorker) (m : StateMachine) : DeviceWorker :=
  {| name := name w; kind := kind w; cfg := cfg w; fsm := m;
     _stopped := _stopped w; _last_anchor := _last_anchor w |}.

(** [x or None] on an optional string. *)
Definition or_None (s : option string) : option string :=
  match s with
  | Some x => if String.eqb x "" then None else Some x
  | None => None
  end.

Definition anchor_unchanged (last : option Q) (anchor : Q) : bool :=
  match last with
  | Some l => Qleb anchor l
  | None => false
  end.

(** The bounds computation of [poll]: [ts_from] for an anchor, widened to
    one second when the span would be empty. *)
Definition window_from (anchor window_seconds : Q) : Q :=
  let ts_to := anchor in
  let ts_from := ts_to - window_seconds in
  if Qgeb ts_from ts_to then ts_to - 1 else ts_from.

(** The window fetch of [poll], by kind of source. *)
Definition fetch_window (w : DeviceWorker) (db : DBClient) (ts_from ts_to : Q)
    : outcome (list Row) :=
  if String.eqb (kind w) "UMIK" then
    fetch_umik_window db ts_from ts_to (limit_last_u (cfg w))
  else
    fetch_analog_window db ts_from ts_to (limit_last_a (cfg w))
                        (or_None (analog_weight_type (cfg w))).

(** A return of [poll] before any fact is built. *)
Definition quit (w : DeviceWorker) (e : PollExit) (a : option Q) : PollResult :=
  {| pr_worker := w; pr_exit := e; pr_anchor := a; pr_rows := [];
     pr_fact := None; pr_sent := None |}.

(** [DeviceWorker.poll]. *)
Definition poll (w : DeviceWorker) (env : PollEnv) : PollResult :=
  if _stopped w then quit w ExitStopped None else
  match _latest_anchor w (pe_db env) with
  | Raised _ => quit w ExitAnchorFailed None
  | Returned None => quit w ExitNoData None
  | Returned (Some anchor) =>
      if anchor_unchanged (_last_anchor w) anchor
      then quit w ExitAnchorUnchanged (Some anchor) else
      let w1 := set_last_anchor w anchor in
      let ts_to := anchor in
      let ts_from := window_from anchor (pe_window_seconds env) in
      match fetch_window w1 (pe_db env) ts_from ts_to with
      | Raised _ => quit w1 ExitFetchFailed (Some anchor)
      | Returned [] => quit w1 ExitNoRows (Some anchor)
      | Returned rows =>
          let fact0 := _make_fact (kind w1) rows ts_from ts_to in
          let fact := fst (check_levels_and_bands fact0 (cfg w1)) in
          let '(m, event) :=
            step (fsm w1) (pe_t1 env) (pe_t2 env) fact (thresholds_view w1) in
          {| pr_worker := set_fsm w1 m; pr_exit := ExitEvaluated;
             pr_anchor := Some anchor; pr_rows := rows;
             pr_fact := Some fact; pr_sent := event |}
      end
  end.

(** [DeviceWorker.shutdown]. *)
Definition shutdown (w : DeviceWorker) : DeviceWorker :=
  {| name := name w; kind := kind w; cfg := cfg w; fsm := fsm w;
     _stopped := true; _last_anchor := _last_anchor w |}.

(** A sequence of polls of one worker, one environment per poll. *)
Fixpoint run_polls (w : DeviceWorker) (envs : list PollEnv)
    : DeviceWorker * list PollResult :=
  match envs with
  | [] => (w, [])
  | e :: rest =>
      let r := poll w e in
      let '(w', rs) := run_polls (pr_worker r) rest in
      (w', r :: rs)
  end.

(** ** Event payloads ([actions/notifier.py], [actions/formatter.py]) *)

(** A value of a payload dictionary. The [type] of an event is one of two
    strings and is kept as the [EventType] it spells. *)
Inductive PayloadValue :=
| PType (t : EventType)
| PText (s : string)
| PFloat (q : Q)
| PInt (n : Z)
| PValues (d : gmap string (option Q))
| PExceeded (levels bands : gmap string bool)
| PThresholds (t : ThresholdsView).

(** A payload: a dictionary in insertion order, as it is serialised. *)
Abbreviation Payload := (list (string * PayloadValue)).

(** [d.get(k)] on a dictionary in insertion order. *)
Fixpoint payload_get {A : Type} (k : string) (d : list (string * A))
    : option A :=
  match d with
  | [] => None
  | (k', v) :: rest => if String.eqb k' k then Some v else payload_get k rest
  end.

(** [k in d]. *)
Definition payload_has {A : Type} (k : string) (d : list (string * A))
    : bool :=
  match payload_get k d with
  | Some _ => true
  | None => false
  end.

(** [d.pop(k, None)], the popped value dropped. *)
Definition payload_pop {A : Type} (k : string) (d : list (string * A))
    : list (string * A) :=
  List.filter (fun kv => negb (String.eqb (fst kv) k)) d.

(** [dataclasses.asdict(event)]: the fields in declaration order. *)
Definition asdict (event : Event) : Payload :=
  [ ("type", PType (ev_type event));
    ("src", PText (ev_src event));
    ("ts_first", PFloat (ev_ts_first event));
    ("ts_last", PFloat (ev_ts_last event));
    ("levels", PValues (ev_levels event));
    ("octaves", PValues (ev_octaves event));
    ("exceeded", PExceeded (ev_exceeded_levels event)
                           (ev_exceeded_bands event));
    ("thresholds", PThresholds (ev_thresholds event));
    ("samples", PInt (ev_samples event));
    ("window_sec", PFloat (ev_window_sec event)) ].

(** [_event_to_payload] of the notifier, on an [Event] (the dataclass
    branch, the one [poll] reaches). *)
Definition _event_to_payload (event : Event) (config : Config) : Payload :=
  let data := asdict event in
  let data :=
    if negb (include_levels (notify config)) && payload_has "levels" data
    then payload_pop "levels" data else data in
  let data :=
    if negb (include_spectrum (notify config)) && payload_has "octaves" data
    then payload_pop "octaves" data else data in
  let ordered :=
    map (fun k => (k, payload_get k data))
        [ "type"; "src"; "ts_first"; "ts_last"; "thresholds"; "exceeded";
          "levels"; "octaves"; "samples"; "window_sec" ] in
  omap (fun kv => match snd kv with
                  | Some v => Some (fst kv, v)
                  | None => None
                  end) ordered.

(** [format_event] of the formatter. *)
Definition format_event (event : Event) (config : Config) : Payload :=
  let payload : Payload :=
    [ ("type", PType (ev_type event));
      ("src", PText (ev_src event));
      ("ts_first", PFloat (ev_ts_first event));
      ("ts_last", PFloat (ev_ts_last event));
      ("samples", PInt (ev_samples event));
      ("window_sec", PFloat (ev_window_sec event)) ] in
  let payload :=
    if include_levels (notify config)
    then (payload ++ [("levels", PValues (ev_levels event))])%list
    else payload in
  let payload :=
    if include_spectrum (notify config) && String.eqb (ev_src event) "UMIK"
    then (payload ++ [("octaves", PValues (ev_octaves event))])%list
    else payload in
  (payload ++ [ ("exceeded", PExceeded (ev_exceeded_levels event)
                                       (ev_exceeded_bands event));
                ("thresholds", PThresholds (ev_thresholds event)) ])%list.

(** * Specification vocabulary

    The predicates the properties are stated with. They are written from
    the specification's data model and rules, not from the code paths they
    are compared with. *)

(** ** Threshold evaluation *)

(** The threshold configured for a level of a source: the spectrum source
    has spl, leq_1s, leq_60s and lmax, the weighted-level source has spl, leq
    and lmax. *)
Definition level_threshold (c : Config) (s lvl : string) : option Q :=
  if String.eqb s "UMIK" then
    if String.eqb lvl "spl" then umik_thr_spl c
    else if String.eqb lvl "leq_1s" then umik_thr_leq_1s c
    else if String.eqb lvl "leq_60s" then umik_thr_leq_60s c
    else if String.eqb lvl "lmax" then umik_thr_lmax c
    else None
  else if String.eqb s "ANALOG" then
    if String.eqb lvl "spl" then analog_thr_spl c
    else if String.eqb lvl "leq" then analog_thr_leq c
    else if String.eqb lvl "lmax" then analog_thr_lmax c
    else None
  else None.

(** The aggregate a level is compared on. *)
Definition level_value (f : Fact) (lvl : string) : option Q :=
  if String.eqb lvl "spl" then spl_max f
  else if String.eqb lvl "lmax" then lmax_max f
  else if String.eqb (src f) "UMIK" then
    if String.eqb lvl "leq_1s" then leq_1s_avg f
    else if String.eqb lvl "leq_60s" then leq_60s_last f
    else None
  else if String.eqb lvl "leq" then leq_avg f
  else None.

(** The threshold configured for a band: only the spectrum source has any. *)
Definition band_threshold (c : Config) (s band : string) : option Q :=
  if String.eqb s "UMIK" then umik_thr_bands c !! band else None.

(** The aggregate a band is compared on. *)
Definition band_value (f : Fact) (band : string) : option Q :=
  dict_get (bands_max f) band.

(** Threshold present, aggregate present, aggregate strictly above. *)
Definition exceeds (thr val : option Q) : Prop :=
  exists t v, thr = Some t /\ val = Some v /\ (t < v)%Q.

(** The entries of the result that are true. *)
Definition true_entries_rule (f : Fact) (c : Config) : Prop :=
  let r := fst (check_levels_and_bands f c) in
  (forall lvl, exceeded_levels r !! lvl = Some true <->
               exceeds (level_threshold c (src f) lvl) (level_value f lvl)) /\
  (forall band, exceeded_bands r !! band = Some true <->
                exceeds (band_threshold c (src f) band) (band_value f band)).

(** Absence as the specification words it: exactly the names with no
    threshold. *)
Definition absent_rule_as_stated (f : Fact) (c : Config) : Prop :=
  let r := fst (check_levels_and_bands f c) in
  (forall lvl, exceeded_levels r !! lvl = None <->
               level_threshold c (src f) lvl = None) /\
  (forall band, exceeded_bands r !! band = None <->
                band_threshold c (src f) band = None).

(** Absence as the code has it: a band is also left out when its aggregate
    is missing. *)
Definition absent_rule (f : Fact) (c : Config) : Prop :=
  let r := fst (check_levels_and_bands f c) in
  (forall lvl, exceeded_levels r !! lvl = None <->
               level_threshold c (src f) lvl = None) /\
  (forall band, exceeded_bands r !! band = None <->
                (band_threshold c (src f) band = None \/
                 band_value f band = None)).

(** The overall flag. *)
Definition flag_rule (f : Fact) (c : Config) : Prop :=
  let r := fst (check_levels_and_bands f c) in
  fst (fst (is_exceeded r)) = true <->
  ((exists lvl, exceeded_levels r !! lvl = Some true) \/
   (exists band, exceeded_bands r !! band = Some true)).

(** The result of the evaluator on a fact of unknown source: the fact with
    both exceedance dictionaries empty, and the warning. *)
Definition unknown_src_result (f : Fact) : Fact * list string :=
  ({| ts_from := ts_from f; ts_to := ts_to f; src := src f;
      spl_max := spl_max f; lmax_max := lmax_max f;
      leq_1s_avg := leq_1s_avg f; leq_60s_last := leq_60s_last f;
      bands_max := bands_max f; leq_avg := leq_avg f;
      exceeded_levels := ∅; exceeded_bands := ∅ |},
   ["Unknown fact.src: " +:+ src f]).

(** Configuration [c'] is at least as strict as [c] is lax: every threshold
    [c'] sets for a source, [c] sets too, no higher. *)
Definition no_stricter (c' c : Config) : Prop :=
  (forall s lvl t', level_threshold c' s lvl = Some t' ->
     exists t, level_threshold c s lvl = Some t /\ (t <= t')%Q) /\
  (forall s band t', band_threshold c' s band = Some t' ->
     exists t, band_threshold c s band = Some t /\ (t <= t')%Q).

(** ** Aggregation *)

(** Every value of the column is missing. *)
Definition all_missing (values : list (option Q)) : Prop :=
  Forall (fun v => v = None) values.

(** [r] is the maximum of the values that are present, or null when there
    is none. *)
Definition max_of_present (r : option Q) (values : list (option Q)) : Prop :=
  match r with
  | None => all_missing values
  | Some m => Some m ∈ values /\ forall x, Some x ∈ values -> (x <= m)%Q
  end.

(** [v] is a float: rounding leaves it as it is. *)
Definition is_float (v : Q) : Prop := round_float v == v.

(** A column with its missing values taken out. *)
Definition without_missing (values : list (option Q)) : list (option Q) :=
  map Some (present values).

(** [r] is null exactly when no value of the column is present, and it is
    the average of the column with the missing values taken out: they count
    neither in the sum nor in the length. *)
Definition avg_of_present (r : option Q) (values : list (option Q)) : Prop :=
  (r = None <-> all_missing values) /\
  r = _safe_avg (without_missing values).

(** The first value that is present, in the order of the list. *)
Definition first_non_null (values : list (option Q)) : option Q :=
  head (present values).

(** The aggregates of a fact built for the spectrum source. *)
Definition umik_aggregates (f : Fact) (rows : list Row) : Prop :=
  max_of_present (spl_max f) (column "spl" rows) /\
  max_of_present (lmax_max f) (column "lmax" rows) /\
  avg_of_present (leq_1s_avg f) (column "leq_1s" rows) /\
  leq_60s_last f = first_non_null (column "leq_60s" rows) /\
  (forall band, band ∈ BAND_COLUMNS ->
     exists r, bands_max f !! band = Some r /\
               max_of_present r (column band rows)).

(** The aggregates of a fact built for the weighted-level source. *)
Definition analog_aggregates (f : Fact) (rows : list Row) : Prop :=
  max_of_present (spl_max f) (column "spl" rows) /\
  max_of_present (lmax_max f) (column "lmax" rows) /\
  avg_of_present (leq_avg f) (column "leq" rows).

(** Equality of two optional numbers as numbers. *)
Definition opt_Qeq (x y : option Q) : Prop :=
  match x, y with
  | Some a, Some b => (a == b)%Q
  | None, None => True
  | _, _ => False
  end.

(** ** Hysteresis *)

(** The overall flag [step] reads off the fact. *)
Definition exceeding (fact : Fact) : bool := fst (fst (is_exceeded fact)).

(** The guard of the ALERT branch of [step], as one boolean; it is related
    to [alert_conditions] by [fires_iff]. *)
Definition fires (sm : StateMachine) (t1 t2 : Q) (fact : Fact) : bool :=
  let sm1 := update_counters sm (exceeding fact) t1 in
  exceeding fact
  && held_for (active_since sm1) t1 (trigger_hold_ms (sm_cfg sm))
  && (consecutive_required (sm_cfg sm) <=? _consec_hit sm1)%Z
  && gap_ok (_last_alert_at_ms sm1) (_now_ms t2) (retrigger_gap_ms (sm_cfg sm)).

(** When the current run of exceedance began: the recorded marker, or this
    very poll when the run begins with it. *)
Definition exceedance_started (sm : StateMachine) (now : Q) : Q :=
  match active_since sm with
  | Some a => a
  | None => now
  end.

(** The four conditions of the NORMAL to ALERT transition, on the machine
    before the call: the poll is exceeding, exceedance has lasted
    [trigger_hold_ms], the count of consecutive exceeding polls, this one
    included, reaches [consecutive_required], and no ALERT was emitted yet
    or [retrigger_gap_ms] has passed since the last one. *)
Definition alert_conditions (sm : StateMachine) (t1 t2 : Q) (fact : Fact)
    : Prop :=
  exceeding fact = true /\
  (inject_Z (trigger_hold_ms (sm_cfg sm))
     <= (t1 - exceedance_started sm t1) * 1000)%Q /\
  (consecutive_required (sm_cfg sm) <= _consec_hit sm + 1)%Z /\
  (_last_alert_at_ms sm = None \/
   exists l, _last_alert_at_ms sm = Some l /\
             (inject_Z (retrigger_gap_ms (sm_cfg sm)) <= _now_ms t2 - l)%Q).

(** What a call returned is an ALERT event. *)
Definition is_alert (out : option Event) : bool :=
  match out with
  | Some ev => match ev_type ev with ALERT_EVENT => true | _ => false end
  | None => false
  end.

(** What a call returned is nothing or an ALERT event. *)
Definition alert_or_nothing (out : option Event) : Prop :=
  match out with
  | Some ev => ev_type ev = ALERT_EVENT
  | None => True
  end.

(** The machine does not rest in ALERT. *)
Definition settled (sm : StateMachine) : Prop :=
  state sm = NORMAL \/ state sm = COOLDOWN.

(** The times, in order, at which a sequence of calls returned an ALERT. *)
Definition alert_times (out : list (Q * option Event)) : list Q :=
  map fst (filter (fun o => is_alert (snd o) = true) out).

(** Each time of the list is at least [gap] after the one before it, the
    first one after [prev] when there is one. *)
Fixpoint spaced (gap : Z) (prev : option Q) (times : list Q) : Prop :=
  match times with
  | [] => True
  | t :: rest =>
      match prev with
      | Some p => (inject_Z gap <= t - p)%Q
      | None => True
      end /\ spaced gap (Some t) rest
  end.

(** The time the recovery hold is measured from: the [recovery_since]
    marker, or this very poll when none is recorded. *)
Definition recovery_started (sm : StateMachine) (now : Q) : Q :=
  match recovery_since sm with
  | Some r => r
  | None => now
  end.

(** The two conditions of the ALERT to COOLDOWN transition, on the machine
    before the call: the poll is not exceeding and [recover_hold_ms] have
    passed since the [recovery_since] marker. *)
Definition recovery_conditions (sm : StateMachine) (t1 : Q) (fact : Fact)
    : Prop :=
  exceeding fact = false /\
  (inject_Z (recover_hold_ms (sm_cfg sm))
     <= (t1 - recovery_started sm t1) * 1000)%Q.

(** The guard of the recovery branch of [step], as one boolean. *)
Definition recovers (sm : StateMachine) (t1 : Q) (fact : Fact) : bool :=
  let sm1 := update_counters sm (exceeding fact) t1 in
  negb (exceeding fact)
  && held_for (recovery_since sm1) t1 (recover_hold_ms (sm_cfg sm)).

(** The run-length counters agree with each other and with the
    exceedance-started marker. *)
Definition counters_consistent (sm : StateMachine) : Prop :=
  (0 <= _consec_hit sm)%Z /\ (0 <= _consec_ok sm)%Z /\
  (_consec_hit sm = 0%Z \/ _consec_ok sm = 0%Z) /\
  (active_since sm = None <-> _consec_hit sm = 0%Z).

(** The number of exceeding polls at the head of a list of calls. *)
Fixpoint leading_exceeding (inputs : list StepInput) : nat :=
  match inputs with
  | [] => O
  | i :: rest =>
      if exceeding (si_fact i) then S (leading_exceeding rest) else O
  end.

(** The number of exceeding polls in a row at the end of a list of calls. *)
Definition trailing_exceeding (inputs : list StepInput) : nat :=
  leading_exceeding (reverse inputs).

(** ** Polling *)

(** Failure of the fetch as the specification words it: the poll leaves the
    worker as it was. *)
Definition fetch_failure_leaves_worker : Prop :=
  forall w env, pr_exit (poll w env) = ExitFetchFailed ->
                pr_worker (poll w env) = w.

(** The anchors, in order, of the polls that built a fact. *)
Definition evaluated_anchors (rs : list PollResult) : list Q :=
  omap (fun r => match pr_fact r with
                 | Some _ => pr_anchor r
                 | None => None
                 end) rs.

(** [a] is strictly past the recorded anchor, if any. *)
Definition past (last : option Q) (a : Q) : Prop :=
  match last with
  | Some l => (l < a)%Q
  | None => True
  end.

(** The columns the aggregator reads. *)
Definition measured_columns : list string :=
  ["spl"; "lmax"; "leq_1s"; "leq_60s"; "leq"] ++ BAND_COLUMNS.

(** Every measured column of every row is NULL. *)
Definition nothing_measured (rows : list Row) : Prop :=
  forall r col, r ∈ rows -> col ∈ measured_columns -> dict_get r col = None.

(** The width [poll] gives a window: the requested length when it is
    positive, one second otherwise. *)
Definition window_width (window_seconds : Q) : Q :=
  if Qgtb window_seconds 0 then window_seconds else 1.

(** The times, in order, at which the polls of a sequence handed an ALERT
    to the notifier: the [now_ms] of the polls whose result carries one. *)
Fixpoint sent_alert_times (envs : list PollEnv) (rs : list PollResult)
    : list Q :=
  match envs, rs with
  | e :: envs', r :: rs' =>
      if is_alert (pr_sent r)
      then _now_ms (pe_t2 e) :: sent_alert_times envs' rs'
      else sent_alert_times envs' rs'
  | _, _ => []
  end.

(** * Sample data

    A spectrum-source configuration with an SPL threshold of 70 and a
    threshold of 40 on the 31.5 Hz band, and a store holding one row. *)

Definition sample_notify : NotifyConfig :=
  {| include_spectrum := true; include_levels := true; send_recovery := true |}.

Definition sample_config : Config :=
  {| window_seconds := 5; limit_last_u := 200; limit_last_a := 200;
     analog_weight_type := None;
     umik_thr_spl := Some 70; umik_thr_leq_1s := None;
     umik_thr_leq_60s := None; umik_thr_lmax := None;
     analog_thr_spl := None; analog_thr_leq := None; analog_thr_lmax := None;
     trigger_hold_ms := 0; recover_hold_ms := 2000; cooldown_ms := 3000;
     retrigger_gap_ms := 5000; consecutive_required := 1;
     notify := sample_notify;
     umik_thr_bands := {[ "31.5_Hz" := 40 ]} |}.

(** A row with an SPL sample and every other column NULL. *)
Definition loud_row : Row := {[ "spl" := Some 75 ]}.

(** The fact the aggregator builds from that row for the window [5, 10]. *)
Definition loud_fact : Fact := _make_fact "UMIK" [loud_row] 5 10.

(** A fact whose source is neither known source. *)
Definition stray_fact : Fact :=
  {| ts_from := 5; ts_to := 10; src := "MIC3";
     spl_max := Some 75; lmax_max := None;
     leq_1s_avg := None; leq_60s_last := None; bands_max := ∅;
     leq_avg := None; exceeded_levels := ∅; exceeded_bands := ∅ |}.

(** Two rows, most recent first: the newer one lacks the long-window
    average, the older one has it. *)
Definition sample_rows : list Row :=
  [ {[ "spl" := Some 75; "leq_1s" := Some 60; "leq_60s" := None ]};
    {[ "spl" := Some 71; "leq_1s" := None; "leq_60s" := Some 58 ]} ].

(** The sample fact with its exceedance annotated. *)
Definition loud_fact_checked : Fact :=
  fst (check_levels_and_bands loud_fact sample_config).

(** An empty thresholds dictionary; [step] only copies it into the event. *)
Definition no_thresholds : ThresholdsView :=
  {| tv_levels := ∅; tv_bands := ∅ |}.

(** A machine in NORMAL with one exceeding poll behind it since time 0. *)
Definition armed_machine : StateMachine :=
  {| sm_src := "UMIK"; sm_cfg := sample_config; state := NORMAL;
     last_transition := 0; active_since := Some 0; recovery_since := None;
     _consec_hit := 1; _consec_ok := 0; _last_alert_at_ms := None |}.

(** A machine that entered COOLDOWN at time 1. *)
Definition cooling_machine : StateMachine :=
  {| sm_src := "UMIK"; sm_cfg := sample_config; state := COOLDOWN;
     last_transition := 1; active_since := Some 0; recovery_since := None;
     _consec_hit := 3; _consec_ok := 0; _last_alert_at_ms := Some 1000 |}.

(** Four polls of the sample machine, all exceeding, at 0 s, 3 s, 4 s and
    6 s: the first alerts, the second ends the cooldown, the third is inside
    the retrigger gap, the fourth alerts again. *)
Definition sample_inputs : list StepInput :=
  map (fun t => {| si_t1 := t; si_t2 := t; si_fact := loud_fact_checked;
                   si_thresholds := no_thresholds |})
      [0; 3; 4; 6]%Q.

(** A fresh spectrum-source worker. *)
Definition fresh_worker : DeviceWorker :=
  DeviceWorker_init "umik" "UMIK" sample_config 0.

(** A store whose latest timestamp is 10 and whose window fetch raises. *)
Definition failing_db : DBClient :=
  {| latest_ts := fun _ => Returned (Some 10);
     fetch_umik_window := fun _ _ _ => Raised "database is locked";
     fetch_analog_window := fun _ _ _ _ => Raised "database is locked" |}.

(** The same store once it answers again: same latest timestamp, one row. *)
Definition healthy_db : DBClient :=
  {| latest_ts := fun _ => Returned (Some 10);
     fetch_umik_window := fun _ _ _ => Returned [loud_row];
     fetch_analog_window := fun _ _ _ _ => Returned [] |}.

Definition failing_env : PollEnv :=
  {| pe_db := failing_db; pe_window_seconds := 5; pe_t1 := 1; pe_t2 := 1 |}.

Definition healthy_env : PollEnv :=
  {| pe_db := healthy_db; pe_window_seconds := 5; pe_t1 := 2; pe_t2 := 2 |}.

(** Two polls of the store with nothing new between them. *)
Definition same_anchor_twice : list PollEnv := [healthy_env; healthy_env].

(** A machine held in ALERT, with non-exceedance running since time 1. *)
Definition alerting_machine : StateMachine :=
  {| sm_src := "UMIK"; sm_cfg := sample_config; state := ALERT;
     last_transition := 1; active_since := None; recovery_since := Some 1;
     _consec_hit := 0; _consec_ok := 1; _last_alert_at_ms := Some 1000 |}.

(** A fact of the spectrum source with nothing exceeded. *)
Definition quiet_fact : Fact :=
  fst (check_levels_and_bands
         (_make_fact "UMIK" [ {[ "spl" := Some 60%Q ]} ] 5 10) sample_config).

(** A store whose latest row, at 10, has every measured column NULL. *)
Definition blank_db : DBClient :=
  {| latest_ts := fun _ => Returned (Some 10);
     fetch_umik_window := fun _ _ _ => Returned [ (∅ : Row) ];
     fetch_analog_window := fun _ _ _ _ => Returned [] |}.

Definition blank_env : PollEnv :=
  {| pe_db := blank_db; pe_window_seconds := 5; pe_t1 := 2; pe_t2 := 2 |}.

(** The sample rows in the opposite order. *)
Definition sample_rows_reversed : list Row := reverse sample_rows.

(** The sample configuration with the SPL threshold raised to 80 and the
    band threshold dropped. *)
Definition lax_config : Config :=
  {| window_seconds := 5; limit_last_u := 200; limit_last_a := 200;
     analog_weight_type := None;
     umik_thr_spl := Some 80; umik_thr_leq_1s := None;
     umik_thr_leq_60s := None; umik_thr_lmax := None;
     analog_thr_spl := None; analog_thr_leq := None; analog_thr_lmax := None;
     trigger_hold_ms := 0; recover_hold_ms := 2000; cooldown_ms := 3000;
     retrigger_gap_ms := 5000; consecutive_required := 1;
     notify := sample_notify;
     umik_thr_bands := ∅ |}.

(** A spectrum-source fact with a maximum SPL of 85. *)
Definition very_loud_fact : Fact :=
  _make_fact "UMIK" [ {[ "spl" := Some 85%Q ]} ] 5 10.

(** The store with a new loud row at each of the times 10, 13, 14 and 16,
    polled at those times. *)
Definition loud_env_at (t : Q) : PollEnv :=
  {| pe_db :=
       {| latest_ts := fun _ => Returned (Some t);
          fetch_umik_window := fun _ _ _ => Returned [loud_row];
          fetch_analog_window := fun _ _ _ _ => Returned [] |};
     pe_window_seconds := 5; pe_t1 := t; pe_t2 := t |}.

Definition loud_polls : list PollEnv :=
  map loud_env_at [10; 13; 14; 16]%Q.

(** The float a literal denotes: the binary64 number nearest to its decimal
    value. *)
Definition float_literal (q : Q) : Q := round_float q.

(** Three rows with the same one-second level, the float [30.1]. *)
Definition steady_rows : list Row :=
  [ {[ "leq_1s" := Some (float_literal (301 # 10)) ]};
    {[ "leq_1s" := Some (float_literal (301 # 10)) ]};
    {[ "leq_1s" := Some (float_literal (301 # 10)) ]} ].


(** * Properties *)

(** ** Comparisons *)

Lemma Qgtb_true (a b : Q) : Qgtb a b = true <-> (b < a)%Q.
Proof.
  unfold Qgtb. rewrite negb_true_iff, <- not_true_iff_false, Qle_bool_iff.
  split; [apply Qnot_le_lt | apply Qlt_not_le].
Qed.

Lemma Qgeb_true (a b : Q) : Qgeb a b = true <-> (b <= a)%Q.
Proof. unfold Qgeb. apply Qle_bool_iff. Qed.

Lemma Qleb_true (a b : Q) : Qleb a b = true <-> (a <= b)%Q.
Proof. unfold Qleb. apply Qle_bool_iff. Qed.

Lemma Qleb_false (a b : Q) : Qleb a b = false <-> (b < a)%Q.
Proof.
  unfold Qleb. rewrite <- not_true_iff_false, Qle_bool_iff.
  split; [apply Qnot_le_lt | apply Qlt_not_le].
Qed.

Lemma any_values_true (d : gmap string bool) :
  any_values d = true <-> exists k, d !! k = Some true.
Proof.
  unfold any_values. rewrite existsb_exists. split.
  - intros [[k v] [Hin Hv]]. simpl in Hv. subst v. exists k.
    apply elem_of_map_to_list. by apply list_elem_of_In.
  - intros [k Hk]. exists (k, true). split; [|done].
    apply list_elem_of_In. by apply elem_of_map_to_list.
Qed.

(** ** The threshold evaluator (C1, C8) *)

Lemma set_level_lookup (n k : string) (thr val : option Q)
    (d : gmap string bool) :
  set_level n thr val d !! k =
  if String.eqb k n then
    match thr with
    | Some t => Some (match val with Some v => Qgtb v t | None => false end)
    | None => d !! k
    end
  else d !! k.
Proof.
  unfold set_level. destruct (String.eqb_spec k n) as [->|Hne].
  - destruct thr; [apply lookup_insert_eq | done].
  - destruct thr; [|done]. by rewrite lookup_insert_ne.
Qed.

Lemma band_loop_lookup (bm : gmap string (option Q)) (thr : gmap string Q)
    (band : string) :
  map_fold (set_band bm) ∅ thr !! band =
  match thr !! band, dict_get bm band with
  | Some t, Some v => Some (Qgtb v t)
  | _, _ => None
  end.
Proof.
  apply (map_fold_weak_ind
           (fun (r : gmap string bool) (m : gmap string Q) =>
              r !! band = match m !! band, dict_get bm band with
                          | Some t, Some v => Some (Qgtb v t)
                          | _, _ => None
                          end)).
  - by rewrite !lookup_empty.
  - intros i x m r Hi IH. unfold set_band.
    destruct (decide (i = band)) as [->|Hne].
    + rewrite lookup_insert_eq.
      destruct (dict_get bm band); [by rewrite lookup_insert_eq|].
      rewrite IH, Hi. done.
    + rewrite (lookup_insert_ne m) by done.
      destruct (dict_get bm i); [by rewrite lookup_insert_ne|done].
Qed.

Section Evaluator.

Variables (f : Fact) (c : Config).

Lemma check_levels_lookup (lvl : string) :
  exceeded_levels (fst (check_levels_and_bands f c)) !! lvl =
  match level_threshold c (src f) lvl with
  | Some t => Some (match level_value f lvl with
                    | Some v => Qgtb v t
                    | None => false
                    end)
  | None => None
  end.
Proof.
  unfold check_levels_and_bands, level_threshold, level_value.
  destruct (String.eqb (src f) "UMIK") eqn:Hu.
  - cbn [fst exceeded_levels]. rewrite !set_level_lookup, lookup_empty.
    destruct (String.eqb_spec lvl "lmax") as [->|];
      [by destruct umik_thr_lmax|].
    destruct (String.eqb_spec lvl "leq_60s") as [->|];
      [by destruct umik_thr_leq_60s|].
    destruct (String.eqb_spec lvl "leq_1s") as [->|];
      [by destruct umik_thr_leq_1s|].
    destruct (String.eqb_spec lvl "spl") as [->|]; [by destruct umik_thr_spl|].
    done.
  - destruct (String.eqb (src f) "ANALOG") eqn:Ha.
    + cbn [fst exceeded_levels]. rewrite !set_level_lookup, lookup_empty.
      destruct (String.eqb_spec lvl "lmax") as [->|];
        [by destruct analog_thr_lmax|].
      destruct (String.eqb_spec lvl "leq") as [->|];
        [by destruct analog_thr_leq|].
      destruct (String.eqb_spec lvl "spl") as [->|];
        [by destruct analog_thr_spl|].
      done.
    + cbn [fst exceeded_levels]. apply lookup_empty.
Qed.

Lemma check_bands_lookup (band : string) :
  exceeded_bands (fst (check_levels_and_bands f c)) !! band =
  match band_threshold c (src f) band, band_value f band with
  | Some t, Some v => Some (Qgtb v t)
  | _, _ => None
  end.
Proof.
  unfold check_levels_and_bands, band_threshold, band_value.
  destruct (String.eqb (src f) "UMIK") eqn:Hu.
  - cbn [fst exceeded_bands]. apply band_loop_lookup.
  - destruct (String.eqb (src f) "ANALOG"); cbn [fst exceeded_bands];
      apply lookup_empty.
Qed.

Lemma true_entries_hold : true_entries_rule f c.
Proof.
  split.
  - intros lvl. rewrite check_levels_lookup. unfold exceeds.
    destruct (level_threshold c (src f) lvl) as [t|].
    + destruct (level_value f lvl) as [v|].
      * split.
        -- intros [= H]. exists t, v. by rewrite <- Qgtb_true.
        -- intros (t' & v' & [= <-] & [= <-] & H). f_equal. by apply Qgtb_true.
      * split; [done|]. by intros (? & ? & _ & ? & _).
    + split; [done|]. by intros (? & ? & ? & _).
  - intros band. rewrite check_bands_lookup. unfold exceeds.
    destruct (band_threshold c (src f) band) as [t|].
    + destruct (band_value f band) as [v|].
      * split.
        -- intros [= H]. exists t, v. by rewrite <- Qgtb_true.
        -- intros (t' & v' & [= <-] & [= <-] & H). f_equal. by apply Qgtb_true.
      * split; [done|]. by intros (? & ? & _ & ? & _).
    + split; [done|]. by intros (? & ? & ? & _).
Qed.

Lemma absent_hold : absent_rule f c.
Proof.
  split.
  - intros lvl. rewrite check_levels_lookup.
    by destruct (level_threshold c (src f) lvl).
  - intros band. rewrite check_bands_lookup.
    destruct (band_threshold c (src f) band), (band_value f band);
      split; try done; try (by left); try (by right); by intros [|].
Qed.

Lemma flag_hold : flag_rule f c.
Proof.
  unfold flag_rule, is_exceeded. cbn [fst].
  rewrite orb_true_iff, !any_values_true. done.
Qed.

(** C1 (amended): for every fact and configuration, a level or band entry of
    the result is true iff its threshold is configured, its aggregate is
    present and the aggregate is strictly above the threshold; a level is
    absent iff it has no configured threshold; a band is absent iff it has no
    configured threshold or its aggregate is missing; and the overall flag is
    true iff some level or band entry is true. *)
Theorem C1_exceedance_result :
  true_entries_rule f c /\ absent_rule f c /\ flag_rule f c.
Proof.
  split; [apply true_entries_hold|].
  split; [apply absent_hold | apply flag_hold].
Qed.

(** C8 (amended): for every fact whose source is neither known source, the
    evaluator logs one warning and returns the fact with empty level and band
    results, whose overall flag is false; nothing is raised to the caller. *)
Theorem C8_unknown_source_warns :
  src f <> "UMIK" -> src f <> "ANALOG" ->
  check_levels_and_bands f c = unknown_src_result f /\
  fst (fst (is_exceeded (fst (check_levels_and_bands f c)))) = false.
Proof.
  intros Hu Ha.
  assert (H : check_levels_and_bands f c = unknown_src_result f).
  { unfold check_levels_and_bands, unknown_src_result.
    apply String.eqb_neq in Hu, Ha. by rewrite Hu, Ha. }
  split; [exact H|]. rewrite H. reflexivity.
Qed.

End Evaluator.

(** C1, as stated, fails: the 31.5 Hz band has a configured threshold, its
    aggregate in the window is missing, and the result has no entry for it,
    so thresholdless names are not the only ones absent. *)
Lemma C1_absent_only_without_threshold_fails :
  band_threshold sample_config (src loud_fact) "31.5_Hz" = Some 40 /\
  band_value loud_fact "31.5_Hz" = None /\
  exceeded_bands (fst (check_levels_and_bands loud_fact sample_config))
    !! "31.5_Hz" = None /\
  ~ absent_rule_as_stated loud_fact sample_config.
Proof.
  assert (Hthr : band_threshold sample_config (src loud_fact) "31.5_Hz"
                 = Some 40) by (vm_compute; reflexivity).
  assert (Habs : exceeded_bands
                   (fst (check_levels_and_bands loud_fact sample_config))
                   !! "31.5_Hz" = None) by (vm_compute; reflexivity).
  split; [exact Hthr|]. split; [vm_compute; reflexivity|].
  split; [exact Habs|].
  intros [_ Hb]. apply Hb in Habs. rewrite Hthr in Habs. discriminate.
Qed.

(** C8, as stated, fails: on a fact of source "MIC3" the evaluator returns
    to its caller, with both exceedance dictionaries empty and the overall
    flag false. *)
Lemma C8_unknown_source_returns_empty :
  src stray_fact <> "UMIK" /\ src stray_fact <> "ANALOG" /\
  check_levels_and_bands stray_fact sample_config
    = unknown_src_result stray_fact /\
  is_exceeded (fst (check_levels_and_bands stray_fact sample_config))
    = (false, ∅, ∅).
Proof. repeat split; try discriminate; vm_compute; reflexivity. Qed.

Lemma C8_unknown_source_warns_witness :
  check_levels_and_bands stray_fact sample_config
    = unknown_src_result stray_fact /\
  fst (fst (is_exceeded
              (fst (check_levels_and_bands stray_fact sample_config)))) = false.
Proof.
  apply (C8_unknown_source_warns stray_fact sample_config); discriminate.
Defined.

(** ** The aggregator (C7) *)

Lemma present_elem (values : list (option Q)) (x : Q) :
  x ∈ present values <-> Some x ∈ values.
Proof.
  unfold present. rewrite list_elem_of_omap. split.
  - intros (o & Ho & Hx). simpl in Hx. by subst o.
  - intros H. by exists (Some x).
Qed.

Lemma present_nil (values : list (option Q)) :
  present values = [] <-> all_missing values.
Proof.
  unfold present, all_missing. induction values as [|[v|] values IH]; simpl.
  - split; [constructor | done].
  - split; [done|]. intros H. by inversion H.
  - rewrite IH. split; [by constructor|]. intros H. by inversion H.
Qed.

Lemma py_max_spec (l : list Q) (x : Q) :
  (py_max x l = x \/ py_max x l ∈ l) /\
  (x <= py_max x l)%Q /\
  (forall y, y ∈ l -> (y <= py_max x l)%Q).
Proof.
  revert x. induction l as [|v l IH]; intros x; unfold py_max; simpl.
  - split; [by left|]. split; [apply Qle_refl|]. intros y Hy. by inversion Hy.
  - fold (py_max (if Qgtb v x then v else x) l).
    destruct (IH (if Qgtb v x then v else x)) as (Hin & Hge & Hall).
    assert (Hx : (x <= (if Qgtb v x then v else x))%Q).
    { destruct (Qgtb v x) eqn:E; [|apply Qle_refl].
      apply Qlt_le_weak. by apply Qgtb_true. }
    assert (Hv : (v <= (if Qgtb v x then v else x))%Q).
    { destruct (Qgtb v x) eqn:E; [apply Qle_refl|].
      apply Qnot_lt_le. intros H. apply Qgtb_true in H. congruence. }
    split; [|split].
    + destruct Hin as [Heq|Hin].
      * rewrite Heq. destruct (Qgtb v x); [right; by left | by left].
      * right. by right.
    + eapply Qle_trans; [exact Hx | exact Hge].
    + intros y Hy. apply elem_of_cons in Hy as [->|Hy].
      * eapply Qle_trans; [exact Hv | exact Hge].
      * by apply Hall.
Qed.

Lemma present_without_missing (values : list (option Q)) :
  present (without_missing values) = present values.
Proof.
  unfold without_missing, present.
  induction (omap id values) as [|x l IH]; [done|].
  simpl. f_equal. exact IH.
Qed.

Lemma _safe_max_spec (values : list (option Q)) :
  max_of_present (_safe_max values) values.
Proof.
  unfold _safe_max, max_of_present.
  destruct (present values) as [|x l] eqn:E.
  - by apply present_nil.
  - destruct (py_max_spec l x) as (Hin & Hge & Hall). split.
    + apply present_elem. rewrite E.
      destruct Hin as [->|Hin]; [by left | by right].
    + intros y Hy. apply present_elem in Hy. rewrite E in Hy.
      apply elem_of_cons in Hy as [->|Hy]; [exact Hge | by apply Hall].
Qed.

Lemma _safe_avg_spec (values : list (option Q)) :
  avg_of_present (_safe_avg values) values.
Proof.
  unfold avg_of_present. split.
  - rewrite <- present_nil. unfold _safe_avg.
    by destruct (present values).
  - unfold _safe_avg. by rewrite present_without_missing.
Qed.

Lemma scan_last_spec (col : string) (rows : list Row) :
  scan_last col rows = first_non_null (column col rows).
Proof.
  unfold first_non_null, present, column.
  induction rows as [|r rows IH]; [done|]. simpl.
  destruct (dict_get r col); [done | exact IH].
Qed.

Lemma band_fold_lookup (g : string -> option Q) (cols : list string)
    (m : gmap string (option Q)) (k : string) :
  k ∈ cols ->
  fold_left (fun bands col => <[col := g col]> bands) cols m !! k
    = Some (g k).
Proof.
  revert m. induction cols as [|c cols IH]; intros m Hk; [by inversion Hk|].
  simpl. destruct (decide (k ∈ cols)) as [Hin|Hnot]; [by apply IH|].
  apply elem_of_cons in Hk as [->|Hk]; [|done].
  clear IH. revert m. induction cols as [|c' cols IH]; intros m; simpl.
  - apply lookup_insert_eq.
  - apply not_elem_of_cons in Hnot as [Hne Hnot].
    rewrite insert_insert_ne by done. by apply IH.
Qed.

(** C7: for every non-empty row list, each max aggregate of the fact is the
    maximum of the present values of its column, and each average aggregate
    is the average of its column with the missing values taken out, either
    one null exactly when the column has no present value; and [leq_60s_last]
    of the spectrum source is the first non-null value in the order of the
    rows, null when there is none. *)
Theorem C7_aggregates_skip_missing (k : string) (rows : list Row)
    (ts_from ts_to : Q) :
  rows <> [] ->
  let f := _make_fact k rows ts_from ts_to in
  if String.eqb k "UMIK" then umik_aggregates f rows
  else analog_aggregates f rows.
Proof.
  intros _ f. subst f. unfold _make_fact.
  destruct (String.eqb k "UMIK").
  - unfold umik_aggregates. cbn [spl_max lmax_max leq_1s_avg leq_60s_last
                                 bands_max].
    split; [apply _safe_max_spec|]. split; [apply _safe_max_spec|].
    split; [apply _safe_avg_spec|]. split; [apply scan_last_spec|].
    intros band Hband. exists (_safe_max (column band rows)).
    split; [|apply _safe_max_spec].
    by apply (band_fold_lookup (fun col => _safe_max (column col rows))).
  - unfold analog_aggregates. cbn [spl_max lmax_max leq_avg].
    split; [apply _safe_max_spec|]. split; [apply _safe_max_spec|].
    apply _safe_avg_spec.
Qed.

Lemma C7_aggregates_skip_missing_witness :
  sample_rows <> [] /\ umik_aggregates (_make_fact "UMIK" sample_rows 5 10)
                                       sample_rows.
Proof.
  split; [discriminate|].
  apply (C7_aggregates_skip_missing "UMIK" sample_rows 5 10). discriminate.
Defined.

(** ** The hysteresis state machine (C3, C4, C6, C10) *)

Lemma update_counters_state (sm : StateMachine) (flag : bool) (now : Q) :
  state (update_counters sm flag now) = state sm.
Proof. by destruct flag. Qed.

Lemma update_counters_cfg (sm : StateMachine) (flag : bool) (now : Q) :
  sm_cfg (update_counters sm flag now) = sm_cfg sm.
Proof. by destruct flag. Qed.

Lemma update_counters_last_alert (sm : StateMachine) (flag : bool) (now : Q) :
  _last_alert_at_ms (update_counters sm flag now) = _last_alert_at_ms sm.
Proof. by destruct flag. Qed.

Lemma gap_ok_true (last : option Q) (now_ms : Q) (gap : Z) :
  gap_ok last now_ms gap = true <->
  (last = None \/
   exists l, last = Some l /\ (inject_Z gap <= now_ms - l)%Q).
Proof.
  unfold gap_ok. destruct last as [l|].
  - rewrite Qgeb_true. split.
    + intros H. right. by exists l.
    + intros [|(l' & [= <-] & H)]; done.
  - split; [by left | done].
Qed.

Section StepCall.

Variables (sm : StateMachine) (t1 t2 : Q) (fact : Fact).
Variable th : ThresholdsView.

(** [step] from NORMAL, when the guard holds. *)
Lemma step_normal_fires :
  state sm = NORMAL -> fires sm t1 t2 fact = true ->
  exists sm' ev,
    step sm t1 t2 fact th = (sm', Some ev) /\
    ev_type ev = ALERT_EVENT /\
    state sm' = COOLDOWN /\
    last_transition sm' = t1 /\
    _last_alert_at_ms sm' = Some (_now_ms t2) /\
    sm_cfg sm' = sm_cfg sm.
Proof.
  intros Hs Hf. unfold step, fires, exceeding, is_exceeded in *.
  cbn [fst] in Hf. rewrite update_counters_state, Hs. rewrite Hf.
  eexists _, _. split; [reflexivity|]. cbn.
  by rewrite update_counters_cfg.
Qed.

(** [step] from NORMAL, when the guard fails. *)
Lemma step_normal_quiet :
  state sm = NORMAL -> fires sm t1 t2 fact = false ->
  step sm t1 t2 fact th = (update_counters sm (exceeding fact) t1, None).
Proof.
  intros Hs Hf. unfold step, fires, exceeding, is_exceeded in *.
  cbn [fst] in Hf. rewrite update_counters_state, Hs. by rewrite Hf.
Qed.

(** [step] from COOLDOWN. *)
Lemma step_cooldown :
  state sm = COOLDOWN ->
  step sm t1 t2 fact th =
  if Qgeb ((t1 - last_transition sm) * 1000)
          (inject_Z (cooldown_ms (sm_cfg sm)))
  then
    ({| sm_src := sm_src sm; sm_cfg := sm_cfg sm; state := NORMAL;
        last_transition := t1; active_since := None; recovery_since := None;
        _consec_hit := 0; _consec_ok := 0;
        _last_alert_at_ms := _last_alert_at_ms sm |}, None)
  else (update_counters sm (exceeding fact) t1, None).
Proof.
  intros Hs. unfold step, exceeding, is_exceeded. cbn [fst].
  rewrite update_counters_state, Hs.
  by destruct (any_values (exceeded_levels fact)
               || any_values (exceeded_bands fact)).
Qed.

(** [step] from ALERT returns no ALERT event and leaves the emission time. *)
Lemma step_alert_state (sm' : StateMachine) (out : option Event) :
  state sm = ALERT -> step sm t1 t2 fact th = (sm', out) ->
  (forall ev, out = Some ev -> ev_type ev = RECOVERY_EVENT) /\
  _last_alert_at_ms sm' = _last_alert_at_ms sm /\
  sm_cfg sm' = sm_cfg sm.
Proof.
  intros Hs. unfold step, is_exceeded.
  rewrite update_counters_state, Hs.
  destruct (negb _ && held_for _ _ _).
  - destruct (send_recovery _); intros [= <- <-]; cbn;
      rewrite update_counters_cfg, update_counters_last_alert;
      (split; [|done]); [by intros ev [= <-] | done].
  - intros [= <- <-].
    rewrite update_counters_cfg, update_counters_last_alert. done.
Qed.

Lemma fires_iff :
  fires sm t1 t2 fact = true <-> alert_conditions sm t1 t2 fact.
Proof.
  unfold fires, alert_conditions, exceedance_started.
  destruct (exceeding fact) eqn:He.
  - cbn [update_counters active_since _consec_hit _last_alert_at_ms andb].
    rewrite !andb_true_iff, gap_ok_true, Z.leb_le.
    assert (Hh : held_for
                   match active_since sm with
                   | Some a => Some a
                   | None => Some t1
                   end t1 (trigger_hold_ms (sm_cfg sm)) = true <->
                 (inject_Z (trigger_hold_ms (sm_cfg sm))
                    <= (t1 - match active_since sm with
                             | Some a => a
                             | None => t1
                             end) * 1000)%Q).
    { destruct (active_since sm); cbn [held_for]; apply Qgeb_true. }
    rewrite Hh. tauto.
  - cbn [andb]. split; [done | by intros [? _]].
Qed.

(** [step] never changes the configuration. *)
Lemma step_cfg :
  sm_cfg (fst (step sm t1 t2 fact th)) = sm_cfg sm.
Proof.
  destruct (state sm) eqn:Hs.
  - destruct (fires sm t1 t2 fact) eqn:Hf.
    + destruct (step_normal_fires Hs Hf)
        as (sm' & ev & -> & _ & _ & _ & _ & Hc). exact Hc.
    + rewrite (step_normal_quiet Hs Hf).
      apply update_counters_cfg.
  - destruct (step sm t1 t2 fact th) as [sm' out] eqn:E.
    by destruct (step_alert_state sm' out Hs E) as (_ & _ & ?).
  - rewrite (step_cooldown Hs).
    destruct (Qgeb _ _); [done | apply update_counters_cfg].
Qed.

Lemma step_settled :
  settled sm ->
  settled (fst (step sm t1 t2 fact th)) /\
  alert_or_nothing (snd (step sm t1 t2 fact th)).
Proof.
  intros [Hs|Hs].
  - destruct (fires sm t1 t2 fact) eqn:Hf.
    + destruct (step_normal_fires Hs Hf)
        as (sm' & ev & -> & Hty & Hst & _). cbn [fst snd].
      split; [by right | exact Hty].
    + rewrite (step_normal_quiet Hs Hf). cbn [fst snd].
      split; [|done]. left. by rewrite update_counters_state.
  - rewrite (step_cooldown Hs).
    destruct (Qgeb _ _); cbn [fst snd]; (split; [|done]).
    + by left.
    + right. by rewrite update_counters_state.
Qed.

(** What [step] does to the recorded emission time. *)
Lemma step_last_alert :
  let r := step sm t1 t2 fact th in
  if is_alert (snd r) then
    gap_ok (_last_alert_at_ms sm) (_now_ms t2) (retrigger_gap_ms (sm_cfg sm))
      = true /\
    _last_alert_at_ms (fst r) = Some (_now_ms t2)
  else _last_alert_at_ms (fst r) = _last_alert_at_ms sm.
Proof.
  cbv zeta. destruct (state sm) eqn:Hs.
  - destruct (fires sm t1 t2 fact) eqn:Hf.
    + destruct (step_normal_fires Hs Hf)
        as (sm' & ev & -> & Hty & _ & _ & Hla & _).
      cbn [fst snd is_alert]. rewrite Hty. split; [|exact Hla].
      unfold fires in Hf. rewrite update_counters_last_alert in Hf.
      by apply andb_true_iff in Hf as [_ ?].
    + rewrite (step_normal_quiet Hs Hf).
      cbn [fst snd is_alert]. apply update_counters_last_alert.
  - destruct (step sm t1 t2 fact th) as [sm' out] eqn:E.
    destruct (step_alert_state sm' out Hs E) as (Hrec & Hla & _).
    cbn [fst snd]. destruct out as [ev|]; cbn [is_alert]; [|exact Hla].
    by rewrite (Hrec ev eq_refl).
  - rewrite (step_cooldown Hs).
    destruct (Qgeb _ _); cbn [fst snd is_alert];
      [done | apply update_counters_last_alert].
Qed.

(** C3: a [step] call on a machine in NORMAL returns an ALERT event iff the
    poll is exceeding, exceedance has lasted at least [trigger_hold_ms], the
    consecutive-exceeding count reaches [consecutive_required], and no ALERT
    was emitted or [retrigger_gap_ms] has elapsed since the last one; and any
    event it returns is an ALERT, with the emission time recorded and the
    machine left in COOLDOWN. *)
Theorem C3_normal_to_alert :
  state sm = NORMAL ->
  let r := step sm t1 t2 fact th in
  ((exists ev, snd r = Some ev /\ ev_type ev = ALERT_EVENT) <->
   alert_conditions sm t1 t2 fact) /\
  (forall ev, snd r = Some ev ->
     ev_type ev = ALERT_EVENT /\
     _last_alert_at_ms (fst r) = Some (_now_ms t2) /\
     state (fst r) = COOLDOWN).
Proof.
  intros Hs r. subst r. rewrite <- fires_iff.
  destruct (fires sm t1 t2 fact) eqn:Hf.
  - destruct (step_normal_fires Hs Hf)
      as (sm' & ev & -> & Hty & Hst & _ & Hla & _).
    cbn [fst snd]. split.
    + split; [done|]. intros _. by exists ev.
    + by intros ev' [= <-].
  - rewrite (step_normal_quiet Hs Hf). cbn [fst snd].
    split; [|done]. split; [by intros (? & ? & _) | done].
Qed.

(** C6: a [step] call on a machine in COOLDOWN returns no event; once
    [cooldown_ms] has elapsed since the last transition it leaves the machine
    in NORMAL with both counters zero and both start markers cleared, whatever
    the exceedance flag, and before that it leaves it in COOLDOWN. *)
Theorem C6_cooldown_to_normal :
  state sm = COOLDOWN ->
  let r := step sm t1 t2 fact th in
  let elapsed_ms := ((t1 - last_transition sm) * 1000)%Q in
  snd r = None /\
  ((inject_Z (cooldown_ms (sm_cfg sm)) <= elapsed_ms)%Q ->
   state (fst r) = NORMAL /\
   _consec_hit (fst r) = 0%Z /\ _consec_ok (fst r) = 0%Z /\
   active_since (fst r) = None /\ recovery_since (fst r) = None) /\
  ((elapsed_ms < inject_Z (cooldown_ms (sm_cfg sm)))%Q ->
   state (fst r) = COOLDOWN).
Proof.
  intros Hs r elapsed_ms. subst r elapsed_ms.
  rewrite (step_cooldown Hs).
  destruct (Qgeb _ _) eqn:Hc; cbn [fst snd].
  - split; [done|]. split; [done|].
    intros Hlt. apply Qgeb_true in Hc. by apply Qlt_not_le in Hlt.
  - split; [done|]. split.
    + intros Hle. apply Qgeb_true in Hle. congruence.
    + intros _. by rewrite update_counters_state.
Qed.

End StepCall.

Lemma C3_normal_to_alert_witness :
  state armed_machine = NORMAL /\
  alert_conditions armed_machine 1 1 loud_fact_checked /\
  exists ev, snd (step armed_machine 1 1 loud_fact_checked no_thresholds)
             = Some ev /\ ev_type ev = ALERT_EVENT.
Proof.
  assert (Hc : alert_conditions armed_machine 1 1 loud_fact_checked).
  { split; [vm_compute; reflexivity|].
    split; [vm_compute; discriminate|].
    split; [vm_compute; discriminate | left; reflexivity]. }
  split; [reflexivity|]. split; [exact Hc|].
  apply (proj1 (C3_normal_to_alert armed_machine 1 1 loud_fact_checked
                  no_thresholds eq_refl)).
  exact Hc.
Defined.

Lemma C6_cooldown_to_normal_witness :
  state cooling_machine = COOLDOWN /\
  snd (step cooling_machine 4 4 loud_fact_checked no_thresholds) = None /\
  state (fst (step cooling_machine 4 4 loud_fact_checked no_thresholds))
    = NORMAL /\
  state (fst (step cooling_machine 3 3 loud_fact_checked no_thresholds))
    = COOLDOWN.
Proof.
  split; [reflexivity|].
  destruct (C6_cooldown_to_normal cooling_machine 4 4 loud_fact_checked
              no_thresholds eq_refl) as (Hnone & Hyes & _).
  destruct (C6_cooldown_to_normal cooling_machine 3 3 loud_fact_checked
              no_thresholds eq_refl) as (_ & _ & Hno).
  split; [exact Hnone|]. split.
  - apply Hyes. vm_compute. discriminate.
  - apply Hno. vm_compute. reflexivity.
Defined.

(** *** Sequences of calls *)

Lemma run_steps_settled (inputs : list StepInput) (sm : StateMachine) :
  settled sm ->
  settled (fst (run_steps sm inputs)) /\
  Forall (fun o => alert_or_nothing (snd o)) (snd (run_steps sm inputs)).
Proof.
  revert sm. induction inputs as [|i inputs IH]; intros sm Hsm; simpl.
  - split; [exact Hsm | constructor].
  - unfold step_in.
    destruct (step_settled sm (si_t1 i) (si_t2 i) (si_fact i)
                (si_thresholds i) Hsm) as [Hs' Hout].
    destruct (step sm (si_t1 i) (si_t2 i) (si_fact i) (si_thresholds i))
      as [sm' ev]. cbn [fst snd] in Hs', Hout.
    destruct (IH sm' Hs') as [Hfin Hall].
    destruct (run_steps sm' inputs) as [sm'' out]. cbn [fst snd] in *.
    split; [exact Hfin|]. by constructor.
Qed.

(** C10: from the initial machine, after every finite sequence of [step]
    calls the state is NORMAL or COOLDOWN, and every call returned an ALERT
    event or nothing, never a RECOVERY event. *)
Theorem C10_alert_state_never_persists (s : string) (c : Config) (t0 : Q)
    (inputs : list StepInput) :
  let r := run_steps (StateMachine_init s c t0) inputs in
  settled (fst r) /\
  Forall (fun o => alert_or_nothing (snd o)) (snd r).
Proof. apply run_steps_settled. by left. Qed.

Lemma run_steps_cfg (inputs : list StepInput) (sm : StateMachine) :
  sm_cfg (fst (run_steps sm inputs)) = sm_cfg sm.
Proof.
  revert sm. induction inputs as [|i inputs IH]; intros sm; simpl; [done|].
  unfold step_in.
  pose proof (step_cfg sm (si_t1 i) (si_t2 i) (si_fact i) (si_thresholds i))
    as Hc.
  destruct (step sm (si_t1 i) (si_t2 i) (si_fact i) (si_thresholds i))
    as [sm' ev]. cbn [fst] in Hc. specialize (IH sm').
  destruct (run_steps sm' inputs) as [sm'' out]. cbn [fst] in *. congruence.
Qed.

Lemma run_steps_spaced (inputs : list StepInput) (sm : StateMachine) :
  spaced (retrigger_gap_ms (sm_cfg sm)) (_last_alert_at_ms sm)
         (alert_times (snd (run_steps sm inputs))).
Proof.
  revert sm. induction inputs as [|i inputs IH]; intros sm; simpl; [done|].
  unfold step_in.
  pose proof (step_cfg sm (si_t1 i) (si_t2 i) (si_fact i) (si_thresholds i))
    as Hc.
  pose proof (step_last_alert sm (si_t1 i) (si_t2 i) (si_fact i)
                (si_thresholds i)) as Hl. cbv zeta in Hl.
  destruct (step sm (si_t1 i) (si_t2 i) (si_fact i) (si_thresholds i))
    as [sm' ev]. cbn [fst snd] in Hc, Hl. specialize (IH sm').
  destruct (run_steps sm' inputs) as [sm'' out]. cbn [fst snd] in *.
  unfold alert_times. rewrite filter_cons. cbn [snd].
  destruct (is_alert ev) eqn:Ha.
  - destruct Hl as [Hgap Hla].
    rewrite decide_True by done. cbn [map fst spaced]. split.
    + apply gap_ok_true in Hgap as [->|(l & -> & Hle)]; done.
    + rewrite <- Hla, <- Hc. exact IH.
  - rewrite decide_False by done. rewrite <- Hl, <- Hc. exact IH.
Qed.

(** The recorded emission time is the time of the last ALERT returned, and
    is null exactly when a machine started without one has returned none. *)
Lemma run_steps_last_alert (inputs : list StepInput) (sm : StateMachine) :
  _last_alert_at_ms (fst (run_steps sm inputs)) =
  match last (alert_times (snd (run_steps sm inputs))) with
  | Some t => Some t
  | None => _last_alert_at_ms sm
  end.
Proof.
  revert sm. induction inputs as [|i inputs IH]; intros sm; simpl; [done|].
  unfold step_in.
  pose proof (step_last_alert sm (si_t1 i) (si_t2 i) (si_fact i)
                (si_thresholds i)) as Hl. cbv zeta in Hl.
  destruct (step sm (si_t1 i) (si_t2 i) (si_fact i) (si_thresholds i))
    as [sm' ev]. cbn [fst snd] in Hl. specialize (IH sm').
  destruct (run_steps sm' inputs) as [sm'' out]. cbn [fst snd] in *.
  rewrite IH. unfold alert_times. rewrite filter_cons. cbn [snd].
  destruct (is_alert ev) eqn:Ha.
  - destruct Hl as [_ Hla]. rewrite decide_True by done. cbn [map fst].
    rewrite Hla.
    destruct (map fst (filter (fun o => is_alert (snd o) = true) out))
      as [|q l]; [reflexivity|].
    rewrite last_cons_cons.
    destruct (last (q :: l)) eqn:E; [reflexivity|]. by apply last_None in E.
  - rewrite decide_False by done. by rewrite Hl.
Qed.

Lemma spaced_adjacent (gap : Z) (times : list Q) (prev : option Q)
    (k : nat) (t t' : Q) :
  spaced gap prev times ->
  times !! k = Some t -> times !! S k = Some t' ->
  (inject_Z gap <= t' - t)%Q.
Proof.
  revert prev k. induction times as [|x times IH]; intros prev k; [done|].
  intros [_ Hrest] Hk Hk'. destruct k as [|k].
  - injection Hk as ->. destruct times as [|y times]; [done|].
    injection Hk' as ->. by destruct Hrest.
  - by apply (IH (Some x) k).
Qed.

(** C4: in every sequence of [step] calls on one machine, each returned
    ALERT comes at least [retrigger_gap_ms] after the ALERT returned before
    it. *)
Theorem C4_alerts_spaced_by_retrigger_gap (sm : StateMachine)
    (inputs : list StepInput) (k : nat) (t t' : Q) :
  let times := alert_times (snd (run_steps sm inputs)) in
  times !! k = Some t -> times !! S k = Some t' ->
  (inject_Z (retrigger_gap_ms (sm_cfg sm)) <= t' - t)%Q.
Proof.
  intros times. subst times.
  apply (spaced_adjacent _ _ (_last_alert_at_ms sm)), run_steps_spaced.
Qed.

Lemma C4_alerts_spaced_by_retrigger_gap_witness :
  alert_times (snd (run_steps (StateMachine_init "UMIK" sample_config 0)
                              sample_inputs)) !! 0%nat = Some 0%Q /\
  alert_times (snd (run_steps (StateMachine_init "UMIK" sample_config 0)
                              sample_inputs)) !! 1%nat = Some 6000%Q /\
  (inject_Z 5000 <= 6000 - 0)%Q.
Proof.
  assert (H0 : alert_times
                 (snd (run_steps (StateMachine_init "UMIK" sample_config 0)
                                 sample_inputs)) !! 0%nat = Some 0%Q)
    by (vm_compute; reflexivity).
  assert (H1 : alert_times
                 (snd (run_steps (StateMachine_init "UMIK" sample_config 0)
                                 sample_inputs)) !! 1%nat = Some 6000%Q)
    by (vm_compute; reflexivity).
  split; [exact H0|]. split; [exact H1|].
  exact (C4_alerts_spaced_by_retrigger_gap
           (StateMachine_init "UMIK" sample_config 0) sample_inputs
           0%nat 0%Q 6000%Q H0 H1).
Defined.

(** ** The source worker (C2, C5, C9) *)

Lemma anchor_unchanged_false (last : option Q) (a : Q) :
  anchor_unchanged last a = false <-> past last a.
Proof.
  unfold anchor_unchanged, past. destruct last as [l|]; [|done].
  apply Qleb_false.
Qed.

Lemma anchor_unchanged_true (l a : Q) :
  (a <= l)%Q -> anchor_unchanged (Some l) a = true.
Proof. intros H. by apply Qleb_true. Qed.

Lemma fetch_window_set_last_anchor (w : DeviceWorker) (a : Q) (db : DBClient)
    (ts_from ts_to : Q) :
  fetch_window (set_last_anchor w a) db ts_from ts_to
  = fetch_window w db ts_from ts_to.
Proof. reflexivity. Qed.

Section PollCall.

Variables (w : DeviceWorker) (env : PollEnv).

(** The two ways a poll ends: without a fact, the machine untouched and the
    worker either as it was or with only the anchor advanced; or with a fact
    for an anchor strictly past the recorded one, which it records. *)
Lemma poll_cases :
  let r := poll w env in
  (pr_fact r = None /\ pr_sent r = None /\ fsm (pr_worker r) = fsm w /\
   (pr_worker r = w \/
    exists a, past (_last_anchor w) a /\ pr_worker r = set_last_anchor w a))
  \/
  (exists a f, pr_fact r = Some f /\ pr_anchor r = Some a /\
               pr_exit r = ExitEvaluated /\
               past (_last_anchor w) a /\
               _last_anchor (pr_worker r) = Some a).
Proof.
  cbv zeta. unfold poll.
  destruct (_stopped w); [left; cbn; by auto|].
  destruct (_latest_anchor w (pe_db env)) as [[a|]|]; try (left; cbn; by auto).
  destruct (anchor_unchanged (_last_anchor w) a) eqn:Hu; [left; cbn; by auto|].
  apply anchor_unchanged_false in Hu.
  destruct (fetch_window _ _ _ _) as [[|row rows]|].
  - left. cbn. repeat split; try done. right. by exists a.
  - right. destruct (step _ _ _ _ _) as [m ev]. cbn. by eexists a, _.
  - left. cbn. repeat split; try done. right. by exists a.
Qed.

Lemma past_mono (x : Q) :
  past (_last_anchor (pr_worker (poll w env))) x -> past (_last_anchor w) x.
Proof.
  destruct poll_cases as [(_ & _ & _ & [->|(a & Ha & ->)])
                                 |(a & f & _ & _ & _ & Ha & ->)];
    [done| |]; cbn [set_last_anchor _last_anchor past]; intros Hx;
    (destruct (_last_anchor w) as [l|]; [|done]); cbn [past] in *;
    by apply (Qlt_trans _ a).
Qed.

End PollCall.

Lemma evaluated_anchors_cons (r : PollResult) (rs : list PollResult) :
  evaluated_anchors (r :: rs) =
  match pr_fact r, pr_anchor r with
  | Some _, Some a => a :: evaluated_anchors rs
  | _, _ => evaluated_anchors rs
  end.
Proof.
  unfold evaluated_anchors. simpl.
  destruct (pr_fact r); [|done]. by destruct (pr_anchor r).
Qed.

Lemma run_polls_increasing (envs : list PollEnv) (w : DeviceWorker) :
  Forall (past (_last_anchor w)) (evaluated_anchors (snd (run_polls w envs)))
  /\ StronglySorted Qlt (evaluated_anchors (snd (run_polls w envs))).
Proof.
  revert w. induction envs as [|e envs IH]; intros w; cbn [run_polls].
  - split; constructor.
  - destruct (IH (pr_worker (poll w e))) as [Hall Hsorted].
    destruct (run_polls (pr_worker (poll w e)) envs) as [w' rs].
    cbn [snd] in *. rewrite evaluated_anchors_cons.
    destruct (poll_cases w e) as [(Hf & _)|(a & f & Hf & Ha & _ & Hp & Hl)].
    + rewrite Hf. split; [|exact Hsorted].
      eapply Forall_impl; [exact Hall|]. intros x. apply past_mono.
    + rewrite Hf, Ha. rewrite Hl in Hall. cbn [past] in Hall. split.
      * constructor; [exact Hp|].
        eapply Forall_impl; [exact Hall|]. intros x Hx. cbn beta in Hx.
        destruct (_last_anchor w) as [l|]; [|done]. cbn [past] in *.
        by apply (Qlt_trans _ a).
      * constructor; [exact Hsorted|].
        apply Forall_forall. intros x Hx.
        by apply (proj1 (Forall_forall _ _) Hall).
Qed.

(** C2, as stated, fails: the poll whose fetch raised has already recorded
    the anchor 10, so the worker is not as it was, and the next poll, with the
    store answering again for the same anchor, returns at the anchor check
    without building a fact; a fresh worker would have evaluated that
    window. *)
Lemma C2_failed_fetch_consumes_anchor :
  pr_exit (poll fresh_worker failing_env) = ExitFetchFailed /\
  _last_anchor fresh_worker = None /\
  _last_anchor (pr_worker (poll fresh_worker failing_env)) = Some 10%Q /\
  pr_exit (poll (pr_worker (poll fresh_worker failing_env)) healthy_env)
    = ExitAnchorUnchanged /\
  pr_fact (poll (pr_worker (poll fresh_worker failing_env)) healthy_env)
    = None /\
  pr_exit (poll fresh_worker healthy_env) = ExitEvaluated /\
  ~ fetch_failure_leaves_worker.
Proof.
  assert (He : pr_exit (poll fresh_worker failing_env) = ExitFetchFailed)
    by (vm_compute; reflexivity).
  assert (Ha : _last_anchor (pr_worker (poll fresh_worker failing_env))
               = Some 10%Q) by (vm_compute; reflexivity).
  split; [exact He|]. split; [reflexivity|]. split; [exact Ha|].
  split; [vm_compute; reflexivity|]. split; [vm_compute; reflexivity|].
  split; [vm_compute; reflexivity|].
  intros H. specialize (H fresh_worker failing_env He).
  rewrite H in Ha. discriminate.
Qed.

(** C2 (amended): when the window fetch raises, the poll builds no fact,
    sends no event and leaves the state machine as it was; it has recorded
    the anchor it read, which is not past that anchor, and nothing else of the
    worker changed; and a later poll that reads an anchor no greater returns
    at the anchor check, leaving the worker as it is. *)
Theorem C2_failed_fetch_aborts_poll (w : DeviceWorker) (env env' : PollEnv)
    (a a' : Q) (msg : string) :
  _stopped w = false ->
  _latest_anchor w (pe_db env) = Returned (Some a) ->
  anchor_unchanged (_last_anchor w) a = false ->
  fetch_window w (pe_db env) (window_from a (pe_window_seconds env)) a
    = Raised msg ->
  _latest_anchor w (pe_db env') = Returned (Some a') ->
  (a' <= a)%Q ->
  let r := poll w env in
  pr_exit r = ExitFetchFailed /\
  pr_fact r = None /\ pr_sent r = None /\
  fsm (pr_worker r) = fsm w /\
  pr_worker r = set_last_anchor w a /\
  poll (pr_worker r) env' = quit (pr_worker r) ExitAnchorUnchanged (Some a').
Proof.
  intros Hs Hl Hu Hf Hl' Hle r.
  assert (Hr : r = quit (set_last_anchor w a) ExitFetchFailed (Some a)).
  { subst r. unfold poll.
    rewrite Hs, Hl, Hu, fetch_window_set_last_anchor, Hf. reflexivity. }
  rewrite Hr. cbn [quit pr_exit pr_fact pr_sent pr_worker].
  repeat split.
  unfold poll. cbn [set_last_anchor _stopped _last_anchor]. rewrite Hs.
  change (_latest_anchor (set_last_anchor w a) (pe_db env'))
    with (_latest_anchor w (pe_db env')).
  rewrite Hl', (anchor_unchanged_true a a' Hle). reflexivity.
Qed.

Lemma C2_failed_fetch_aborts_poll_witness :
  pr_exit (poll fresh_worker failing_env) = ExitFetchFailed /\
  pr_fact (poll fresh_worker failing_env) = None /\
  pr_sent (poll fresh_worker failing_env) = None /\
  fsm (pr_worker (poll fresh_worker failing_env)) = fsm fresh_worker /\
  pr_worker (poll fresh_worker failing_env)
    = set_last_anchor fresh_worker 10 /\
  poll (pr_worker (poll fresh_worker failing_env)) healthy_env
    = quit (pr_worker (poll fresh_worker failing_env)) ExitAnchorUnchanged
           (Some 10%Q).
Proof.
  apply (C2_failed_fetch_aborts_poll fresh_worker failing_env healthy_env
           10 10 "database is locked");
    first [reflexivity | discriminate].
Defined.

(** C5: a poll that reads an anchor not strictly past the recorded one
    changes nothing and builds no fact; a poll that builds no fact does not
    touch the state machine and sends nothing; and over any sequence of polls
    the anchors of the polls that did build a fact are strictly increasing,
    so each anchor value is aggregated, evaluated and stepped at most once. *)
Theorem C5_one_evaluation_per_anchor (w : DeviceWorker) (env : PollEnv)
    (envs : list PollEnv) (a l : Q) :
  (_latest_anchor w (pe_db env) = Returned (Some a) ->
   _last_anchor w = Some l -> (a <= l)%Q ->
   pr_worker (poll w env) = w /\ pr_fact (poll w env) = None /\
   pr_sent (poll w env) = None) /\
  (pr_fact (poll w env) = None ->
   fsm (pr_worker (poll w env)) = fsm w /\ pr_sent (poll w env) = None) /\
  StronglySorted Qlt (evaluated_anchors (snd (run_polls w envs))).
Proof.
  split; [|split].
  - intros Hl Hlast Hle. unfold poll.
    destruct (_stopped w); [done|].
    by rewrite Hl, Hlast, (anchor_unchanged_true l a Hle).
  - intros Hf.
    destruct (poll_cases w env) as [(_ & Hs & Hm & _)|(? & ? & Hf' & _)];
      [done | congruence].
  - apply run_polls_increasing.
Qed.

Lemma C5_one_evaluation_per_anchor_witness :
  pr_worker (poll (pr_worker (poll fresh_worker healthy_env)) healthy_env)
    = pr_worker (poll fresh_worker healthy_env) /\
  pr_fact (poll (pr_worker (poll fresh_worker healthy_env)) healthy_env)
    = None /\
  evaluated_anchors (snd (run_polls fresh_worker same_anchor_twice))
    = [10%Q] /\
  StronglySorted Qlt
    (evaluated_anchors (snd (run_polls fresh_worker same_anchor_twice))).
Proof.
  destruct (C5_one_evaluation_per_anchor
              (pr_worker (poll fresh_worker healthy_env)) healthy_env
              [] 10 10) as (Hnoop & _ & _).
  destruct Hnoop as (Hw & Hf & _);
    [reflexivity | vm_compute; reflexivity | discriminate |].
  split; [exact Hw|]. split; [exact Hf|].
  split; [vm_compute; reflexivity|].
  apply (C5_one_evaluation_per_anchor fresh_worker healthy_env
           same_anchor_twice 10 10).
Defined.

(** C9 fails on the code: the poll of a fresh worker over the one-row window
    hands the notifier an ALERT event whose sample count is 0, while one row
    was aggregated; its window duration, 5 s, is the one the event builder
    computed. *)
Lemma C9_sent_event_has_zero_samples :
  exists ev,
    pr_sent (poll fresh_worker healthy_env) = Some ev /\
    ev_type ev = ALERT_EVENT /\
    length (pr_rows (poll fresh_worker healthy_env)) = 1%nat /\
    ev_samples ev = 0%Z /\
    ev_window_sec ev = 5%Q.
Proof.
  eexists. split; [vm_compute; reflexivity|].
  repeat split; vm_compute; reflexivity.
Qed.

(** * Further properties of the code *)

(** ** The state machine beyond the documented transitions *)

(** The propositional goals left by the cases of the ALERT branch. *)
Ltac alert_case :=
  try (intros ? [= <-]);
  intuition (try discriminate; try congruence; eauto);
  match goal with
  | H : exists _, None = Some _ |- _ => by destruct H
  | _ => idtac
  end.

Section AlertBranch.

Variables (sm : StateMachine) (t1 t2 : Q) (fact : Fact).
Variable th : ThresholdsView.

Lemma recovers_iff :
  recovers sm t1 fact = true <-> recovery_conditions sm t1 fact.
Proof.
  unfold recovers, recovery_conditions, recovery_started.
  destruct (exceeding fact) eqn:He.
  - cbn [negb andb]. split; [done | by intros [? _]].
  - cbn [negb andb update_counters recovery_since].
    destruct (recovery_since sm); cbn [held_for]; rewrite Qgeb_true;
      (split; [by intros ? | by intros [_ ?]]).
Qed.

(** [step] from ALERT, in one equation. *)
Lemma step_alert_branch :
  state sm = ALERT ->
  step sm t1 t2 fact th =
  let sm1 := update_counters sm (exceeding fact) t1 in
  if recovers sm t1 fact then
    let sm2 :=
      {| sm_src := sm_src sm1; sm_cfg := sm_cfg sm1; state := COOLDOWN;
         last_transition := t1;
         active_since := active_since sm1;
         recovery_since := recovery_since sm1;
         _consec_hit := _consec_hit sm1; _consec_ok := _consec_ok sm1;
         _last_alert_at_ms := _last_alert_at_ms sm1 |} in
    if send_recovery (notify (sm_cfg sm)) then
      (sm2, Some (_make_event sm2 RECOVERY_EVENT fact th
                    (exceeded_levels fact) (exceeded_bands fact)))
    else (sm2, None)
  else (sm1, None).
Proof.
  intros Hs. unfold step, recovers, exceeding, is_exceeded. cbn [fst].
  by rewrite update_counters_state, Hs.
Qed.

(** X1: a [step] call on a machine held in ALERT moves it to COOLDOWN iff
    the poll is not exceeding and at least [recover_hold_ms] have passed since
    the [recovery_since] marker (since this poll, when none is recorded), and
    otherwise leaves it in ALERT; it returns an event iff it makes that move
    and [send_recovery] is set, and that event is a RECOVERY; the recorded
    time of the last ALERT is not touched. *)
Theorem step_alert_to_cooldown :
  state sm = ALERT ->
  let r := step sm t1 t2 fact th in
  (state (fst r) = COOLDOWN <-> recovery_conditions sm t1 fact) /\
  (state (fst r) = ALERT <-> ~ recovery_conditions sm t1 fact) /\
  ((exists ev, snd r = Some ev) <->
   recovery_conditions sm t1 fact /\
   send_recovery (notify (sm_cfg sm)) = true) /\
  (forall ev, snd r = Some ev ->
     ev_type ev = RECOVERY_EVENT /\ last_transition (fst r) = t1) /\
  _last_alert_at_ms (fst r) = _last_alert_at_ms sm.
Proof.
  intros Hs r. subst r. rewrite (step_alert_branch Hs). cbv zeta.
  rewrite <- recovers_iff.
  destruct (recovers sm t1 fact).
  - destruct (send_recovery (notify (sm_cfg sm))); cbn [fst snd state];
      rewrite ?update_counters_last_alert; split_and!; alert_case.
  - cbn [fst snd]. rewrite update_counters_state, Hs,
      update_counters_last_alert. split_and!; alert_case.
Qed.

End AlertBranch.

Lemma step_alert_to_cooldown_witness :
  state alerting_machine = ALERT /\
  recovery_conditions alerting_machine 3 quiet_fact /\
  state (fst (step alerting_machine 3 3 quiet_fact no_thresholds))
    = COOLDOWN /\
  exists ev, snd (step alerting_machine 3 3 quiet_fact no_thresholds)
             = Some ev.
Proof.
  assert (Hc : recovery_conditions alerting_machine 3 quiet_fact).
  { split; [vm_compute; reflexivity | vm_compute; discriminate]. }
  destruct (step_alert_to_cooldown alerting_machine 3 3 quiet_fact
              no_thresholds eq_refl) as (Hcool & _ & Hev & _).
  split; [reflexivity|]. split; [exact Hc|].
  split; [by apply Hcool|]. apply Hev. by split.
Defined.

Section CallFacts.

Variables (sm : StateMachine) (t1 t2 : Q) (fact : Fact).
Variable th : ThresholdsView.

(** The counters and the exceedance marker after a call are those of the
    bookkeeping at its head, unless the call left COOLDOWN and reset them. *)
Lemma step_counters :
  let r := step sm t1 t2 fact th in
  let sm1 := update_counters sm (exceeding fact) t1 in
  (_consec_hit (fst r) = _consec_hit sm1 /\
   _consec_ok (fst r) = _consec_ok sm1 /\
   active_since (fst r) = active_since sm1) \/
  (state sm = COOLDOWN /\
   _consec_hit (fst r) = 0%Z /\ _consec_ok (fst r) = 0%Z /\
   active_since (fst r) = None).
Proof.
  cbv zeta. destruct (state sm) eqn:Hs.
  - destruct (fires sm t1 t2 fact) eqn:Hf.
    + unfold step, fires, exceeding, is_exceeded in *. cbn [fst] in Hf.
      rewrite update_counters_state, Hs, Hf. by left.
    + rewrite (step_normal_quiet sm t1 t2 fact th Hs Hf). by left.
  - rewrite (step_alert_branch sm t1 t2 fact th Hs). cbv zeta.
    destruct (recovers sm t1 fact); [|by left].
    destruct (send_recovery _); by left.
  - rewrite (step_cooldown sm t1 t2 fact th Hs).
    destruct (Qgeb _ _); [by right | by left].
Qed.

(** A call that returns an ALERT was made in NORMAL on an exceeding poll
    that brought the count to [consecutive_required], and leaves the machine
    in COOLDOWN. *)
Lemma step_alert_facts :
  is_alert (snd (step sm t1 t2 fact th)) = true ->
  state sm = NORMAL /\ exceeding fact = true /\
  (consecutive_required (sm_cfg sm) <= _consec_hit sm + 1)%Z /\
  state (fst (step sm t1 t2 fact th)) = COOLDOWN.
Proof.
  destruct (state sm) eqn:Hs.
  - destruct (fires sm t1 t2 fact) eqn:Hf.
    + intros _. pose proof (proj1 (fires_iff sm t1 t2 fact) Hf)
        as (He & _ & Hn & _).
      destruct (step_normal_fires sm t1 t2 fact th Hs Hf)
        as (sm' & ev & -> & _ & Hst & _). done.
    + by rewrite (step_normal_quiet sm t1 t2 fact th Hs Hf).
  - destruct (step sm t1 t2 fact th) as [sm' out] eqn:E.
    destruct (step_alert_state sm t1 t2 fact th sm' out Hs E) as (Hrec & _).
    cbn [snd]. destruct out as [ev|]; cbn [is_alert]; [|done].
    by rewrite (Hrec ev eq_refl).
  - rewrite (step_cooldown sm t1 t2 fact th Hs). by destruct (Qgeb _ _).
Qed.

Lemma step_consistent :
  counters_consistent sm ->
  counters_consistent (fst (step sm t1 t2 fact th)).
Proof.
  intros (Hh & Ho & _ & _). unfold counters_consistent.
  destruct step_counters as [(-> & -> & ->)|(_ & -> & -> & ->)];
    [|split_and!; [lia | lia | by left | by split]].
  destruct (exceeding fact); cbn [update_counters _consec_hit _consec_ok
                                  active_since].
  - split_and!; [lia | done | by right |].
    split; [by destruct (active_since sm) | lia].
  - split_and!; [done | lia | by left | done].
Qed.

End CallFacts.

Lemma run_steps_snoc (inputs : list StepInput) (i : StepInput)
    (sm : StateMachine) :
  run_steps sm (inputs ++ [i]) =
  (fst (step_in (fst (run_steps sm inputs)) i),
   (snd (run_steps sm inputs)
    ++ [(_now_ms (si_t2 i),
         snd (step_in (fst (run_steps sm inputs)) i))])%list).
Proof.
  revert sm. induction inputs as [|j inputs IH]; intros sm; simpl.
  - by destruct (step_in sm i).
  - destruct (step_in sm j) as [sm' ev]. rewrite IH.
    by destruct (run_steps sm' inputs).
Qed.

Lemma run_steps_consistent (inputs : list StepInput) (sm : StateMachine) :
  counters_consistent sm -> counters_consistent (fst (run_steps sm inputs)).
Proof.
  revert sm. induction inputs as [|i inputs IH]; intros sm Hsm; simpl;
    [done|].
  unfold step_in.
  pose proof (step_consistent sm (si_t1 i) (si_t2 i) (si_fact i)
                (si_thresholds i) Hsm) as Hc.
  destruct (step sm (si_t1 i) (si_t2 i) (si_fact i) (si_thresholds i))
    as [sm' ev]. cbn [fst] in Hc. specialize (IH sm' Hc).
  by destruct (run_steps sm' inputs).
Qed.

(** X2: from the initial machine, after every sequence of [step] calls both
    run-length counters are non-negative, at most one of them is non-zero,
    and the exceedance-started marker is set exactly when the
    consecutive-exceeding count is positive. *)
Theorem counters_stay_consistent (s : string) (c : Config) (t0 : Q)
    (inputs : list StepInput) :
  counters_consistent (fst (run_steps (StateMachine_init s c t0) inputs)).
Proof.
  apply run_steps_consistent. unfold counters_consistent. cbn.
  split_and!; [lia | lia | by left | by split].
Qed.

Lemma trailing_exceeding_snoc (inputs : list StepInput) (i : StepInput) :
  trailing_exceeding (inputs ++ [i]) =
  if exceeding (si_fact i) then S (trailing_exceeding inputs) else O.
Proof. unfold trailing_exceeding. by rewrite reverse_snoc. Qed.

Lemma run_steps_hit_bound (inputs : list StepInput) (sm : StateMachine) :
  _consec_hit sm = 0%Z ->
  (0 <= _consec_hit (fst (run_steps sm inputs))
     <= Z.of_nat (trailing_exceeding inputs))%Z.
Proof.
  intros H0. induction inputs as [|i inputs IH] using rev_ind.
  - cbn. lia.
  - rewrite run_steps_snoc, trailing_exceeding_snoc. cbn [fst].
    unfold step_in.
    destruct (step_counters (fst (run_steps sm inputs)) (si_t1 i) (si_t2 i)
                (si_fact i) (si_thresholds i))
      as [(-> & _ & _)|(_ & -> & _ & _)]; [|lia].
    destruct (exceeding (si_fact i)); cbn [update_counters _consec_hit]; lia.
Qed.

(** X3: when a call on a machine reached from the initial one returns an
    ALERT, the exceeding polls in a row that end with that call number at
    least [consecutive_required]. *)
Theorem alert_needs_consecutive_hits (s : string) (c : Config) (t0 : Q)
    (inputs : list StepInput) (i : StepInput) :
  is_alert (snd (step_in (fst (run_steps (StateMachine_init s c t0) inputs))
                         i)) = true ->
  (consecutive_required c
     <= Z.of_nat (trailing_exceeding (inputs ++ [i])))%Z.
Proof.
  intros Ha. apply step_alert_facts in Ha as (_ & He & Hn & _).
  rewrite run_steps_cfg in Hn. cbn [StateMachine_init sm_cfg] in Hn.
  rewrite trailing_exceeding_snoc, He.
  pose proof (run_steps_hit_bound inputs (StateMachine_init s c t0) eq_refl).
  lia.
Qed.

Lemma alert_needs_consecutive_hits_witness :
  is_alert (snd (step_in (fst (run_steps
                                 (StateMachine_init "UMIK" sample_config 0)
                                 []))
                         {| si_t1 := 0; si_t2 := 0;
                            si_fact := loud_fact_checked;
                            si_thresholds := no_thresholds |})) = true /\
  (consecutive_required sample_config
     <= Z.of_nat (trailing_exceeding
                    ([] ++ [ {| si_t1 := 0; si_t2 := 0;
                                si_fact := loud_fact_checked;
                                si_thresholds := no_thresholds |} ])))%Z.
Proof.
  assert (Ha : is_alert
                 (snd (step_in
                         (fst (run_steps
                                 (StateMachine_init "UMIK" sample_config 0)
                                 []))
                         {| si_t1 := 0; si_t2 := 0;
                            si_fact := loud_fact_checked;
                            si_thresholds := no_thresholds |})) = true)
    by (vm_compute; reflexivity).
  split; [exact Ha|].
  exact (alert_needs_consecutive_hits "UMIK" sample_config 0 [] _ Ha).
Defined.

(** X4: whatever the configuration and the clock, a machine that is not held
    in ALERT never returns an ALERT from two calls in a row. *)
Theorem no_alert_right_after_alert (inputs : list StepInput)
    (sm : StateMachine) (k : nat) (o o' : Q * option Event) :
  settled sm ->
  snd (run_steps sm inputs) !! k = Some o ->
  snd (run_steps sm inputs) !! S k = Some o' ->
  is_alert (snd o) = true -> is_alert (snd o') = false.
Proof.
  revert sm k. induction inputs as [|i inputs IH]; intros sm k Hsm; [done|].
  cbn [run_steps]. unfold step_in.
  destruct (step_settled sm (si_t1 i) (si_t2 i) (si_fact i) (si_thresholds i)
              Hsm) as [Hs' _].
  pose proof (step_alert_facts sm (si_t1 i) (si_t2 i) (si_fact i)
                (si_thresholds i)) as Hal.
  destruct (step sm (si_t1 i) (si_t2 i) (si_fact i) (si_thresholds i))
    as [sm' ev]. cbn [fst snd] in Hs', Hal.
  specialize (IH sm').
  destruct (run_steps sm' inputs) as [sm'' out] eqn:Hrun. cbn [snd] in *.
  destruct k as [|k]; [|by apply IH].
  intros [= <-] Ho' Ha. cbn [snd] in Ha.
  destruct (Hal Ha) as (_ & _ & _ & Hcool).
  destruct inputs as [|j inputs]; [by inversion Hrun; subst|].
  cbn [run_steps] in Hrun. unfold step_in in Hrun.
  rewrite (step_cooldown sm' (si_t1 j) (si_t2 j) (si_fact j)
             (si_thresholds j) Hcool) in Hrun.
  destruct (Qgeb _ _); destruct (run_steps _ inputs);
    injection Hrun as <- <-; by injection Ho' as <-.
Qed.

Lemma no_alert_right_after_alert_witness :
  settled (StateMachine_init "UMIK" sample_config 0) /\
  is_alert (snd (0%Q, snd (step (StateMachine_init "UMIK" sample_config 0)
                             0 0 loud_fact_checked no_thresholds))) = true /\
  is_alert (snd (3000%Q, @None Event)) = false.
Proof.
  assert (H1 : snd (run_steps (StateMachine_init "UMIK" sample_config 0)
                              sample_inputs) !! 1%nat = Some (3000%Q, None))
    by (vm_compute; reflexivity).
  assert (H0 : snd (run_steps (StateMachine_init "UMIK" sample_config 0)
                              sample_inputs) !! 0%nat
               = Some (0%Q, snd (step (StateMachine_init "UMIK" sample_config 0)
                                   0 0 loud_fact_checked no_thresholds)))
    by (vm_compute; reflexivity).
  assert (Ha : is_alert
                 (snd (0%Q, snd (step (StateMachine_init "UMIK" sample_config 0)
                                   0 0 loud_fact_checked no_thresholds)))
               = true) by (vm_compute; reflexivity).
  split; [by left|]. split; [exact Ha|].
  exact (no_alert_right_after_alert sample_inputs
           (StateMachine_init "UMIK" sample_config 0) 0%nat _ _
           (or_introl eq_refl) H0 H1 Ha).
Defined.

(** ** The worker: what a poll builds and sends *)

Lemma window_from_lt (a ws : Q) : (window_from a ws < a)%Q.
Proof.
  unfold window_from. cbv zeta. destruct (Qgeb (a - ws) a) eqn:E.
  - apply Qlt_minus_iff. ring_simplify. reflexivity.
  - apply Qnot_le_lt. intros H. apply Qgeb_true in H. congruence.
Qed.

Lemma window_from_width (a ws : Q) :
  (a - window_from a ws == window_width ws)%Q.
Proof.
  unfold window_from, window_width. cbv zeta.
  destruct (Qgeb (a - ws) a) eqn:E; destruct (Qgtb ws 0) eqn:G.
  - apply Qgeb_true in E. apply Qgtb_true in G. exfalso.
    apply (Qlt_not_le _ _ G). apply Qle_minus_iff in E.
    apply Qle_minus_iff. ring_simplify in E. ring_simplify. exact E.
  - ring.
  - ring.
  - exfalso. assert (H : ~ (ws <= 0)%Q).
    { intros H. assert (Hge : Qgeb (a - ws) a = true).
      { apply Qgeb_true. apply Qle_minus_iff. apply Qle_minus_iff in H.
        ring_simplify. ring_simplify in H. exact H. }
      congruence. }
    apply H. apply Qnot_lt_le. intros Hlt. apply Qgtb_true in Hlt. congruence.
Qed.

Lemma check_keeps_aggregates (f : Fact) (c : Config) :
  let r := fst (check_levels_and_bands f c) in
  ts_from r = ts_from f /\ ts_to r = ts_to f /\ src r = src f /\
  bands_max r = bands_max f.
Proof.
  unfold check_levels_and_bands.
  destruct (String.eqb (src f) "UMIK"); [done|].
  by destruct (String.eqb (src f) "ANALOG").
Qed.

Lemma _make_fact_bounds (k : string) (rows : list Row) (a b : Q) :
  ts_from (_make_fact k rows a b) = a /\ ts_to (_make_fact k rows a b) = b.
Proof. unfold _make_fact. by destruct (String.eqb k "UMIK"). Qed.

(** What [step] builds when it returns an event. *)
Lemma step_event (sm : StateMachine) (t1 t2 : Q) (fact : Fact)
    (th : ThresholdsView) (ev : Event) :
  snd (step sm t1 t2 fact th) = Some ev ->
  exists m ety,
    sm_src m = sm_src sm /\
    ev = _make_event m ety fact th (exceeded_levels fact)
                     (exceeded_bands fact).
Proof.
  unfold step, is_exceeded. rewrite update_counters_state.
  assert (Hsrc : forall flag, sm_src (update_counters sm flag t1) = sm_src sm)
    by (by intros []).
  destruct (state sm).
  - destruct (_ && _ && _ && _); [|done]. intros [= <-].
    eexists _, _. split; [|reflexivity]. apply Hsrc.
  - destruct (negb _ && _); [|done].
    destruct (send_recovery _); [|done]. intros [= <-].
    eexists _, _. split; [|reflexivity]. apply Hsrc.
  - by destruct (Qgeb _ _).
Qed.

Section Evaluation.

Variables (w : DeviceWorker) (env : PollEnv).

(** A poll that built a fact went through every stage: it read an anchor
    past the recorded one, fetched at least one row, aggregated and annotated
    the window that ends at the anchor, and stepped the machine on it. *)
Lemma poll_evaluated (f : Fact) :
  pr_fact (poll w env) = Some f ->
  exists a row rows,
    _stopped w = false /\
    _latest_anchor w (pe_db env) = Returned (Some a) /\
    past (_last_anchor w) a /\
    fetch_window w (pe_db env) (window_from a (pe_window_seconds env)) a
      = Returned (row :: rows) /\
    f = fst (check_levels_and_bands
               (_make_fact (kind w) (row :: rows)
                           (window_from a (pe_window_seconds env)) a)
               (cfg w)) /\
    pr_anchor (poll w env) = Some a /\
    pr_rows (poll w env) = row :: rows /\
    pr_sent (poll w env)
      = snd (step (fsm w) (pe_t1 env) (pe_t2 env) f (thresholds_view w)) /\
    pr_worker (poll w env)
      = set_fsm (set_last_anchor w a)
                (fst (step (fsm w) (pe_t1 env) (pe_t2 env) f
                           (thresholds_view w))).
Proof.
  unfold poll. destruct (_stopped w); [done|].
  destruct (_latest_anchor w (pe_db env)) as [[a|]|]; try done.
  destruct (anchor_unchanged (_last_anchor w) a) eqn:Hu; [done|].
  apply anchor_unchanged_false in Hu.
  rewrite fetch_window_set_last_anchor.
  destruct (fetch_window _ _ _ _) as [[|row rows]|] eqn:Hfw; try done.
  cbn [set_last_anchor kind cfg fsm].
  change (thresholds_view (set_last_anchor w a)) with (thresholds_view w).
  destruct (step _ _ _ _ _) as [m ev] eqn:E.
  cbn [pr_fact pr_anchor pr_rows pr_sent pr_worker]. intros [= <-].
  exists a, row, rows. rewrite E. by split_and!.
Qed.

(** The bounds of a built fact, as [poll] computed them. *)
Lemma poll_fact_bounds (f : Fact) :
  pr_fact (poll w env) = Some f ->
  exists a, pr_anchor (poll w env) = Some a /\ ts_to f = a /\
            ts_from f = window_from a (pe_window_seconds env).
Proof.
  intros Hf.
  destruct (poll_evaluated f Hf) as (a & row & rows & _ & _ & _ & _ & -> & Ha
                                     & _).
  destruct (check_keeps_aggregates
              (_make_fact (kind w) (row :: rows)
                          (window_from a (pe_window_seconds env)) a) (cfg w))
    as (-> & -> & _).
  destruct (_make_fact_bounds (kind w) (row :: rows)
              (window_from a (pe_window_seconds env)) a) as [-> ->].
  by exists a.
Qed.

(** X5: the window of every fact a poll builds ends at the anchor read,
    starts strictly before it, and is as wide as the requested length, or one
    second when that length is not positive. *)
Theorem poll_window_bounds (f : Fact) :
  pr_fact (poll w env) = Some f ->
  pr_anchor (poll w env) = Some (ts_to f) /\
  (ts_from f < ts_to f)%Q /\
  (ts_to f - ts_from f == window_width (pe_window_seconds env))%Q.
Proof.
  intros Hf. destruct (poll_fact_bounds f Hf) as (a & Ha & -> & ->).
  split; [exact Ha|].
  split; [apply window_from_lt | apply window_from_width].
Qed.

(** X6: every event a poll hands to the notifier describes the fact of that
    poll: its timestamps are the bounds of the window, its duration is their
    difference (so it is positive), its exceedance detail is the annotation of
    the fact, its thresholds are the snapshot built from the configuration,
    and its source is the one the machine was created for. *)
Theorem sent_event_describes_fact (ev : Event) :
  pr_sent (poll w env) = Some ev ->
  exists f,
    pr_fact (poll w env) = Some f /\
    ev_ts_first ev = ts_from f /\ ev_ts_last ev = ts_to f /\
    ev_window_sec ev = (ts_to f - ts_from f)%Q /\
    (0 < ev_window_sec ev)%Q /\
    ev_exceeded_levels ev = exceeded_levels f /\
    ev_exceeded_bands ev = exceeded_bands f /\
    ev_thresholds ev = thresholds_view w /\
    ev_src ev = sm_src (fsm w).
Proof.
  intros Hev.
  destruct (pr_fact (poll w env)) as [f|] eqn:Hf.
  - exists f. split; [done|].
    assert (Hlt : (ts_from f < ts_to f)%Q).
    { destruct (poll_fact_bounds f Hf) as (a0 & _ & -> & ->).
      apply window_from_lt. }
    destruct (poll_evaluated f Hf) as (a & row & rows & _ & _ & _ & _ & _ & _
                                       & _ & Hs & _).
    rewrite Hs in Hev. apply step_event in Hev as (m & ety & Hm & ->).
    assert (Hpos : Qgtb (ts_to f - ts_from f) 0 = true).
    { apply Qgtb_true. apply Qlt_minus_iff in Hlt. exact Hlt. }
    cbn. unfold _win_seconds. cbv zeta. rewrite Hpos.
    split_and!; try done. by apply Qgtb_true.
  - destruct (poll_cases w env) as [(_ & Hs & _)|(? & ? & Hf' & _)];
      congruence.
Qed.

End Evaluation.

Lemma poll_window_bounds_witness :
  pr_anchor (poll fresh_worker healthy_env) = Some 10%Q /\
  exists f, pr_fact (poll fresh_worker healthy_env) = Some f /\
            (ts_from f < ts_to f)%Q.
Proof.
  destruct (pr_fact (poll fresh_worker healthy_env)) as [f|] eqn:Hf;
    [|vm_compute in Hf; discriminate].
  destruct (poll_window_bounds fresh_worker healthy_env f Hf)
    as (Ha & Hlt & _).
  split; [vm_compute; reflexivity|]. exists f. split; [reflexivity | exact Hlt].
Defined.

Lemma sent_event_describes_fact_witness :
  exists ev f,
    pr_sent (poll fresh_worker healthy_env) = Some ev /\
    pr_fact (poll fresh_worker healthy_env) = Some f /\
    ev_window_sec ev = (ts_to f - ts_from f)%Q.
Proof.
  destruct (pr_sent (poll fresh_worker healthy_env)) as [ev|] eqn:Hev;
    [|vm_compute in Hev; discriminate].
  destruct (sent_event_describes_fact fresh_worker healthy_env ev Hev)
    as (f & Hf & _ & _ & Hw & _).
  exists ev, f. split; [reflexivity|]. split; [exact Hf | exact Hw].
Defined.

Lemma band_fold_lookup_other (g : string -> option Q) (cols : list string)
    (m : gmap string (option Q)) (k : string) :
  k ∉ cols ->
  fold_left (fun bands col => <[col := g col]> bands) cols m !! k = m !! k.
Proof.
  revert m. induction cols as [|c cols IH]; intros m Hk; [done|].
  apply not_elem_of_cons in Hk as [Hne Hk]. simpl.
  rewrite IH by done. by apply lookup_insert_ne.
Qed.

(** X7: whatever the kind of the worker, the fact the aggregator builds is
    of the spectrum source when the kind is "UMIK" and of the weighted-level
    source otherwise, so evaluating it never takes the unknown-source branch:
    no warning is logged. *)
Theorem built_fact_has_known_source (k : string) (rows : list Row) (a b : Q)
    (c : Config) :
  let f := _make_fact k rows a b in
  (if String.eqb k "UMIK" then src f = "UMIK" else src f = "ANALOG") /\
  snd (check_levels_and_bands f c) = [].
Proof.
  cbv zeta. unfold check_levels_and_bands, _make_fact.
  by destruct (String.eqb k "UMIK").
Qed.

Lemma _make_fact_bands (k : string) (rows : list Row) (a b : Q)
    (band : string) :
  bands_max (_make_fact k rows a b) !! band =
  if String.eqb k "UMIK" && bool_decide (band ∈ BAND_COLUMNS)
  then Some (_safe_max (column band rows)) else None.
Proof.
  unfold _make_fact. destruct (String.eqb k "UMIK"); cbn [bands_max andb];
    [|apply lookup_empty].
  case_bool_decide as Hin.
  - by rewrite (band_fold_lookup (fun col => _safe_max (column col rows))).
  - rewrite (band_fold_lookup_other
               (fun col => _safe_max (column col rows))) by done.
    apply lookup_empty.
Qed.

Lemma _make_fact_src (k : string) (rows : list Row) (a b : Q) :
  src (_make_fact k rows a b)
  = if String.eqb k "UMIK" then "UMIK" else "ANALOG".
Proof. unfold _make_fact. by destruct (String.eqb k "UMIK"). Qed.

(** X8: the annotated fact of a spectrum-source window has a band aggregate
    under exactly the nine octave columns, and band results only for octave
    columns that have a configured threshold; the fact of any other kind has
    no band aggregate and no band result at all. *)
Theorem band_mapping_by_kind (k : string) (rows : list Row) (a b : Q)
    (c : Config) :
  let f := fst (check_levels_and_bands (_make_fact k rows a b) c) in
  if String.eqb k "UMIK" then
    (forall band, is_Some (bands_max f !! band) <-> band ∈ BAND_COLUMNS) /\
    (forall band, is_Some (exceeded_bands f !! band) ->
       band ∈ BAND_COLUMNS /\ is_Some (umik_thr_bands c !! band))
  else bands_max f = ∅ /\ exceeded_bands f = ∅.
Proof.
  cbv zeta.
  destruct (check_keeps_aggregates (_make_fact k rows a b) c)
    as (_ & _ & _ & Hb).
  pose proof (check_bands_lookup (_make_fact k rows a b) c) as Hx.
  unfold band_threshold, band_value, dict_get in Hx.
  rewrite _make_fact_src in Hx. rewrite Hb. clear Hb.
  pose proof (_make_fact_bands k rows a b) as Hm.
  destruct (String.eqb k "UMIK"); cbn [andb] in Hm.
  - change (String.eqb "UMIK" "UMIK") with true in Hx. cbv iota in Hx.
    split.
    + intros band. rewrite Hm. case_bool_decide; [|by split; [intros []|]].
      split; [done | by eexists].
    + intros band. rewrite Hx, Hm.
      destruct (umik_thr_bands c !! band) as [t|]; [|by intros [? ?]].
      case_bool_decide; [|by intros [? ?]].
      intros _. split; [done | by eexists].
  - change (String.eqb "ANALOG" "UMIK") with false in Hx. cbv iota in Hx.
    split; apply map_eq; intros band; rewrite lookup_empty; [apply Hm|].
    apply Hx.
Qed.

(** Membership in a list given by its elements. *)
Ltac in_list :=
  repeat first [apply list_elem_of_here | apply list_elem_of_further].

Section Silence.

Variables (k : string) (rows : list Row) (a b : Q) (c : Config).
Hypothesis Hnone : nothing_measured rows.

Lemma column_all_missing (col : string) :
  col ∈ measured_columns -> present (column col rows) = [].
Proof.
  intros Hcol. apply present_nil. unfold all_missing, column.
  apply Forall_forall. intros v Hv.
  apply list_elem_of_fmap in Hv as (r & -> & Hr). by apply Hnone.
Qed.

Lemma scan_last_missing (col : string) :
  col ∈ measured_columns -> scan_last col rows = None.
Proof.
  intros Hcol. rewrite scan_last_spec. unfold first_non_null.
  by rewrite column_all_missing.
Qed.

Lemma _safe_max_missing (col : string) :
  col ∈ measured_columns -> _safe_max (column col rows) = None.
Proof. intros Hcol. unfold _safe_max. by rewrite column_all_missing. Qed.

Lemma _safe_avg_missing (col : string) :
  col ∈ measured_columns -> _safe_avg (column col rows) = None.
Proof. intros Hcol. unfold _safe_avg. by rewrite column_all_missing. Qed.

Lemma measured_band (band : string) :
  band ∈ BAND_COLUMNS -> band ∈ measured_columns.
Proof. intros H. unfold measured_columns. apply elem_of_app. by right. Qed.

Lemma nothing_measured_levels (lvl : string) :
  level_value (_make_fact k rows a b) lvl = None.
Proof.
  unfold level_value, _make_fact.
  assert (Hl : forall col, col ∈ ["spl"; "lmax"; "leq_1s"; "leq_60s"; "leq"]
                           -> col ∈ measured_columns).
  { intros col H. unfold measured_columns. apply elem_of_app. by left. }
  destruct (String.eqb k "UMIK"); cbn [src spl_max lmax_max leq_1s_avg
                                       leq_60s_last leq_avg];
    repeat match goal with
           | |- context [if ?x then _ else _] => destruct x
           end;
    first [ done
          | apply _safe_max_missing, Hl; in_list
          | apply _safe_avg_missing, Hl; in_list
          | apply scan_last_missing, Hl; in_list ].
Qed.

Lemma nothing_measured_bands (band : string) :
  band_value (_make_fact k rows a b) band = None.
Proof.
  unfold band_value, dict_get. rewrite _make_fact_bands.
  destruct (String.eqb k "UMIK"); cbn [andb]; [|done].
  case_bool_decide; [|done]. by apply _safe_max_missing, measured_band.
Qed.

(** A window in which nothing was measured exceeds nothing. *)
Lemma nothing_measured_quiet :
  exceeding (fst (check_levels_and_bands (_make_fact k rows a b) c)) = false.
Proof.
  apply not_true_iff_false. intros He.
  apply (flag_hold (_make_fact k rows a b) c) in He.
  destruct (true_entries_hold (_make_fact k rows a b) c) as [Hl Hb].
  destruct He as [[lvl He]|[band He]].
  - apply Hl in He as (t & v & _ & Hv & _).
    by rewrite nothing_measured_levels in Hv.
  - apply Hb in He as (t & v & _ & Hv & _).
    by rewrite nothing_measured_bands in Hv.
Qed.

End Silence.

(** A call on a non-exceeding poll returns nothing unless the machine is
    held in ALERT. *)
Lemma step_quiet_poll (sm : StateMachine) (t1 t2 : Q) (fact : Fact)
    (th : ThresholdsView) :
  settled sm -> exceeding fact = false ->
  snd (step sm t1 t2 fact th) = None.
Proof.
  intros [Hs|Hs] He.
  - rewrite (step_normal_quiet sm t1 t2 fact th Hs); [done|].
    unfold fires. by rewrite He.
  - rewrite (step_cooldown sm t1 t2 fact th Hs). by destruct (Qgeb _ _).
Qed.

(** X9: a poll whose rows carry no measurement at all (every measured
    column NULL in every row) sends no event, whatever the thresholds, as
    long as the machine is not held in ALERT. *)
Theorem empty_measurements_never_alert (w : DeviceWorker) (env : PollEnv) :
  settled (fsm w) -> nothing_measured (pr_rows (poll w env)) ->
  pr_sent (poll w env) = None.
Proof.
  intros Hs Hn.
  destruct (poll_cases w env) as [(_ & Hsent & _)|(a & f & Hf & _)];
    [exact Hsent|].
  destruct (poll_evaluated w env f Hf)
    as (a' & row & rows & _ & _ & _ & _ & -> & _ & Hrows & -> & _).
  rewrite Hrows in Hn. apply step_quiet_poll; [exact Hs|].
  by apply nothing_measured_quiet.
Qed.

(** X10: after [shutdown], polls do nothing: the worker stays as it is and
    every poll returns at once, without reading the store. *)
Theorem polls_after_shutdown (w : DeviceWorker) (envs : list PollEnv) :
  run_polls (shutdown w) envs =
  (shutdown w, map (fun _ => quit (shutdown w) ExitStopped None) envs).
Proof.
  induction envs as [|e envs IH]; [done|].
  cbn [run_polls map]. unfold poll at 1 2. cbn [shutdown _stopped].
  fold (shutdown w). cbn [quit pr_worker]. by rewrite IH.
Qed.

Lemma empty_measurements_never_alert_witness :
  settled (fsm fresh_worker) /\
  pr_exit (poll fresh_worker blank_env) = ExitEvaluated /\
  pr_sent (poll fresh_worker blank_env) = None.
Proof.
  split; [by left|]. split; [vm_compute; reflexivity|].
  apply (empty_measurements_never_alert fresh_worker blank_env); [by left|].
  intros r col Hr _.
  assert (Hrows : pr_rows (poll fresh_worker blank_env) = [ (∅ : Row) ])
    by (vm_compute; reflexivity).
  rewrite Hrows in Hr. apply list_elem_of_singleton in Hr as ->.
  unfold dict_get. by rewrite lookup_empty.
Defined.

(** ** The worker: anchors and what reaches the notifier *)

Section AnchorBookkeeping.

Variables (w : DeviceWorker) (env : PollEnv).

Lemma poll_worker_cases :
  pr_worker (poll w env) = w \/
  (_stopped w = false /\
   exists a, _latest_anchor w (pe_db env) = Returned (Some a) /\
             past (_last_anchor w) a /\
             _last_anchor (pr_worker (poll w env)) = Some a).
Proof.
  unfold poll. destruct (_stopped w); [by left|].
  destruct (_latest_anchor w (pe_db env)) as [[a|]|]; try by left.
  destruct (anchor_unchanged (_last_anchor w) a) eqn:Hu; [by left|].
  apply anchor_unchanged_false in Hu. right. split; [done|].
  exists a. split_and!; [done | done |].
  destruct (fetch_window _ _ _ _) as [[|r rs]|]; try done.
  by destruct (step _ _ _ _ _).
Qed.

(** X11: a poll changes the worker iff the worker is not stopped and the
    store's latest timestamp is strictly past the recorded anchor; and then
    the worker records that timestamp, whether or not the fetch that follows
    succeeds or returns rows. *)
Theorem poll_changes_worker_iff :
  (pr_worker (poll w env) <> w <->
   _stopped w = false /\
   exists a, _latest_anchor w (pe_db env) = Returned (Some a) /\
             past (_last_anchor w) a) /\
  (forall a, _stopped w = false ->
             _latest_anchor w (pe_db env) = Returned (Some a) ->
             past (_last_anchor w) a ->
             _last_anchor (pr_worker (poll w env)) = Some a).
Proof.
  assert (Hadv : forall a, _stopped w = false ->
             _latest_anchor w (pe_db env) = Returned (Some a) ->
             past (_last_anchor w) a ->
             _last_anchor (pr_worker (poll w env)) = Some a).
  { intros a Hs Hl Hp. unfold poll. rewrite Hs, Hl.
    apply anchor_unchanged_false in Hp. rewrite Hp.
    destruct (fetch_window _ _ _ _) as [[|r rs]|]; try done.
    by destruct (step _ _ _ _ _). }
  split; [|exact Hadv]. split.
  - intros Hne. destruct poll_worker_cases as [Heq|(Hs & a & Hl & Hp & _)];
      [done|]. split; [done | by exists a].
  - intros (Hs & a & Hl & Hp) Heq.
    specialize (Hadv a Hs Hl Hp). rewrite Heq in Hadv. rewrite Hadv in Hp.
    by apply Qlt_irrefl in Hp.
Qed.

End AnchorBookkeeping.

Lemma poll_changes_worker_iff_witness :
  pr_worker (poll fresh_worker failing_env) <> fresh_worker /\
  _last_anchor (pr_worker (poll fresh_worker failing_env)) = Some 10%Q.
Proof.
  destruct (poll_changes_worker_iff fresh_worker failing_env) as [Hiff Hrec].
  split.
  - apply Hiff. split; [reflexivity|]. by exists 10%Q.
  - by apply Hrec.
Defined.

(** X12: the recorded anchor never moves back: once a worker has recorded
    an anchor, after any sequence of polls it has recorded one that is at
    least as late. *)
Theorem recorded_anchor_never_decreases (envs : list PollEnv)
    (w : DeviceWorker) (l : Q) :
  _last_anchor w = Some l ->
  exists l', _last_anchor (fst (run_polls w envs)) = Some l' /\ (l <= l')%Q.
Proof.
  revert w l. induction envs as [|e envs IH]; intros w l Hl.
  - exists l. split; [done | apply Qle_refl].
  - cbn [run_polls].
    assert (Hnext : exists l1, _last_anchor (pr_worker (poll w e)) = Some l1
                               /\ (l <= l1)%Q).
    { destruct (poll_cases w e) as [(_ & _ & _ & [->|(a & Ha & ->)])
                                   |(a & f & _ & _ & _ & Ha & ->)].
      - exists l. split; [done | apply Qle_refl].
      - exists a. split; [done|]. rewrite Hl in Ha. by apply Qlt_le_weak.
      - exists a. split; [done|]. rewrite Hl in Ha. by apply Qlt_le_weak. }
    destruct Hnext as (l1 & Hl1 & Hle).
    destruct (IH (pr_worker (poll w e)) l1 Hl1) as (l' & Hl' & Hle').
    destruct (run_polls (pr_worker (poll w e)) envs) as [w' rs].
    exists l'. split; [exact Hl'|]. by apply (Qle_trans _ l1).
Qed.

Lemma recorded_anchor_never_decreases_witness :
  exists l', _last_anchor
               (fst (run_polls (pr_worker (poll fresh_worker failing_env))
                               same_anchor_twice)) = Some l' /\
             (10 <= l')%Q.
Proof.
  apply (recorded_anchor_never_decreases same_anchor_twice
           (pr_worker (poll fresh_worker failing_env)) 10).
  vm_compute. reflexivity.
Defined.

Lemma poll_settled (w : DeviceWorker) (env : PollEnv) :
  settled (fsm w) ->
  settled (fsm (pr_worker (poll w env))) /\
  alert_or_nothing (pr_sent (poll w env)).
Proof.
  intros Hs.
  destruct (poll_cases w env) as [(_ & -> & -> & _)|(a & f & Hf & _)];
    [done|].
  destruct (poll_evaluated w env f Hf)
    as (a' & row & rows & _ & _ & _ & _ & _ & _ & _ & -> & ->).
  cbn [set_fsm fsm]. by apply step_settled.
Qed.

(** X13: a worker as [DeviceWorker.__init__] builds it never hands a
    RECOVERY event to the notifier: over any sequence of polls everything it
    sends is an ALERT, and its machine is never left in ALERT. *)
Theorem worker_sends_only_alerts (n k : string) (c : Config) (t0 : Q)
    (envs : list PollEnv) :
  let r := run_polls (DeviceWorker_init n k c t0) envs in
  settled (fsm (fst r)) /\
  Forall (fun p => alert_or_nothing (pr_sent p)) (snd r).
Proof.
  cbv zeta.
  assert (Hgen : forall w, settled (fsm w) ->
            settled (fsm (fst (run_polls w envs))) /\
            Forall (fun p => alert_or_nothing (pr_sent p))
                   (snd (run_polls w envs))).
  { induction envs as [|e envs IH]; intros w Hs.
    - split; [exact Hs | constructor].
    - cbn [run_polls]. destruct (poll_settled w e Hs) as [Hs' Hev].
      destruct (IH (pr_worker (poll w e)) Hs') as [Hfin Hall].
      destruct (run_polls (pr_worker (poll w e)) envs) as [w' rs].
      split; [exact Hfin | by constructor]. }
  apply Hgen. by left.
Qed.

(** The snapshot handed to [step] holds, for a worker of a known kind, the
    thresholds the evaluator compares the levels of that kind against. *)
Lemma thresholds_view_levels (w : DeviceWorker) (lvl : string) (t : Q) :
  kind w = "UMIK" \/ kind w = "ANALOG" ->
  tv_levels (thresholds_view w) !! lvl = Some (Some t) <->
  level_threshold (cfg w) (kind w) lvl = Some t.
Proof.
  assert (Hopt : forall o : option Q, Some o = Some (Some t) <-> o = Some t)
    by (intros o; split; [by intros [= ->] | by intros ->]).
  unfold thresholds_view, level_threshold. cbn [tv_levels].
  intros [Hk|Hk]; rewrite Hk.
  - change (String.eqb "UMIK" "UMIK") with true.
    change (String.eqb "UMIK" "ANALOG") with false. cbv iota.
    destruct (String.eqb_spec lvl "spl") as [->|?];
      [by rewrite !lookup_insert_ne, lookup_insert_eq by done|].
    destruct (String.eqb_spec lvl "leq_1s") as [->|?];
      [by rewrite !lookup_insert_ne, lookup_insert_eq by done|].
    destruct (String.eqb_spec lvl "leq_60s") as [->|?];
      [by rewrite !lookup_insert_ne, lookup_insert_eq by done|].
    destruct (String.eqb_spec lvl "lmax") as [->|?];
      [by rewrite lookup_insert_eq|].
    destruct (String.eqb_spec lvl "leq") as [->|?];
      [by rewrite lookup_insert_ne, lookup_insert_eq by done|].
    by rewrite !lookup_insert_ne, lookup_empty by done.
  - change (String.eqb "ANALOG" "UMIK") with false.
    change (String.eqb "ANALOG" "ANALOG") with true. cbv iota.
    destruct (String.eqb_spec lvl "spl") as [->|?];
      [by rewrite !lookup_insert_ne, lookup_insert_eq by done|].
    destruct (String.eqb_spec lvl "leq") as [->|?];
      [by rewrite lookup_insert_ne, lookup_insert_eq by done|].
    destruct (String.eqb_spec lvl "lmax") as [->|?];
      [by rewrite lookup_insert_eq|].
    destruct (String.eqb_spec lvl "leq_1s") as [->|?];
      [by rewrite !lookup_insert_ne, lookup_insert_eq by done|].
    destruct (String.eqb_spec lvl "leq_60s") as [->|?];
      [by rewrite !lookup_insert_ne, lookup_insert_eq by done|].
    by rewrite !lookup_insert_ne, lookup_empty by done.
Qed.

(** X14: for a worker of kind "UMIK" or "ANALOG", the thresholds snapshot
    that goes into the event accounts for the result of the evaluation: the
    fact has a level result exactly for the levels whose snapshot threshold is
    not null, and a band result only for bands the snapshot has a threshold
    for. *)
Theorem snapshot_accounts_for_result (w : DeviceWorker) (env : PollEnv)
    (f : Fact) :
  kind w = "UMIK" \/ kind w = "ANALOG" ->
  pr_fact (poll w env) = Some f ->
  (forall lvl, is_Some (exceeded_levels f !! lvl) <->
               exists t, tv_levels (thresholds_view w) !! lvl
                         = Some (Some t)) /\
  (forall band, is_Some (exceeded_bands f !! band) ->
                is_Some (tv_bands (thresholds_view w) !! band)).
Proof.
  intros Hk Hf.
  destruct (poll_evaluated w env f Hf)
    as (a & row & rows & _ & _ & _ & _ & -> & _).
  set (f0 := _make_fact (kind w) (row :: rows)
                        (window_from a (pe_window_seconds env)) a).
  assert (Hsrc : src f0 = kind w).
  { unfold f0. rewrite _make_fact_src. by destruct Hk as [->| ->]. }
  split.
  - intros lvl. rewrite check_levels_lookup, Hsrc. split.
    + destruct (level_threshold (cfg w) (kind w) lvl) as [t|] eqn:Ht;
        [|by intros [? ?]].
      intros _. exists t. by apply thresholds_view_levels.
    + intros [t Ht]. apply thresholds_view_levels in Ht; [|done].
      rewrite Ht. by eexists.
  - intros band. rewrite check_bands_lookup, Hsrc.
    unfold band_threshold, thresholds_view. cbn [tv_bands].
    destruct (String.eqb (kind w) "UMIK"); [|by intros [? ?]].
    destruct (umik_thr_bands (cfg w) !! band); [|by intros [? ?]].
    intros _. by eexists.
Qed.

Lemma snapshot_accounts_for_result_witness :
  exists f, pr_fact (poll fresh_worker healthy_env) = Some f /\
            (is_Some (exceeded_levels f !! "spl") <->
             exists t, tv_levels (thresholds_view fresh_worker) !! "spl"
                       = Some (Some t)).
Proof.
  destruct (pr_fact (poll fresh_worker healthy_env)) as [f|] eqn:Hf;
    [|vm_compute in Hf; discriminate].
  exists f. split; [reflexivity|].
  apply (snapshot_accounts_for_result fresh_worker healthy_env f);
    [by left | exact Hf].
Defined.

(** ** Rounding to binary64 *)

Lemma two_pow_Z (n : Z) : (0 <= n)%Z -> inject_Z (2 ^ n) == 2 ^ n.
Proof. intros H. rewrite Zpower_Qpower by exact H. reflexivity. Qed.

Lemma two_pow_pos (n : Z) : 0 < 2 ^ n.
Proof. apply Qpower_0_lt. reflexivity. Qed.

Lemma Z_log2_bounds (n : Z) :
  (0 < n)%Z ->
  2 ^ Z.log2 n <= inject_Z n /\ inject_Z n < 2 ^ (Z.log2 n + 1).
Proof.
  intros H. destruct (Z.log2_spec n H) as [Hlo Hhi].
  pose proof (Z.log2_nonneg n) as Hnn. split.
  - rewrite <- two_pow_Z by exact Hnn. rewrite <- Zle_Qle. exact Hlo.
  - rewrite <- two_pow_Z by lia. rewrite <- Zlt_Qlt.
    replace (Z.log2 n + 1)%Z with (Z.succ (Z.log2 n)) by lia. exact Hhi.
Qed.

Lemma Qlog2_spec (a : Q) :
  0 < a -> 2 ^ Qlog2 a <= a /\ a < 2 ^ (Qlog2 a + 1).
Proof.
  intros Ha. destruct a as [n d].
  assert (Hn : (0 < n)%Z).
  { unfold Qlt in Ha. simpl in Ha. lia. }
  destruct (Z_log2_bounds n Hn) as [Hnlo Hnhi].
  destruct (Z_log2_bounds (Zpos d) eq_refl) as [Hdlo Hdhi].
  assert (Hq : n # d == inject_Z n / inject_Z (Zpos d)).
  { rewrite (Qmake_Qdiv n d). reflexivity. }
  assert (Hd : 0 < inject_Z (Zpos d)) by reflexivity.
  unfold Qlog2. cbn [Qnum Qden].
  set (ln := Z.log2 n) in *. set (ld := Z.log2 (Zpos d)) in *.
  destruct (Qle_bool (2 ^ (ln - ld)) (n # d)) eqn:E.
  - apply Qle_bool_iff in E. split; [exact E|].
    rewrite Hq. apply Qlt_shift_div_r; [exact Hd|].
    eapply Qlt_le_trans; [exact Hnhi|].
    replace (ln + 1)%Z with ((ln - ld + 1) + ld)%Z by lia.
    rewrite Qpower_plus by discriminate.
    apply Qmult_le_l; [apply two_pow_pos | exact Hdlo].
  - assert (Hlt : n # d < 2 ^ (ln - ld)).
    { apply Qnot_le_lt. intros H. apply Qle_bool_iff in H. congruence. }
    split.
    + rewrite Hq. apply Qle_shift_div_l; [exact Hd|].
      eapply Qle_trans; [|exact Hnlo].
      replace ln with ((ln - ld - 1) + (ld + 1))%Z at 2 by lia.
      rewrite Qpower_plus by discriminate.
      apply Qmult_le_l; [apply two_pow_pos | apply Qlt_le_weak, Hdhi].
    + replace (ln - ld - 1 + 1)%Z with (ln - ld)%Z by lia. exact Hlt.
Qed.

Lemma round_half_even_spec (m : Q) :
  Qabs (inject_Z (round_half_even m) - m) <= 1 # 2.
Proof.
  pose proof (Qfloor_le m) as Hlo. pose proof (Qlt_floor m) as Hhi.
  unfold round_half_even. cbv zeta.
  set (f := Qfloor m) in *.
  assert (Hf1 : inject_Z (f + 1) == inject_Z f + 1).
  { rewrite inject_Z_plus. reflexivity. }
  rewrite Hf1 in Hhi.
  apply Qabs_Qle_condition.
  destruct (Qcompare_spec (m - inject_Z f) (1 # 2)) as [He|Hl|Hg].
  - destruct (Z.even f); [|rewrite Hf1]; lra.
  - lra.
  - rewrite Hf1. lra.
Qed.

Lemma Qlog2_unique (a : Q) (e : Z) :
  2 ^ e <= a -> a < 2 ^ (e + 1) -> Qlog2 a = e.
Proof.
  intros Hlo Hhi.
  assert (Ha : 0 < a) by (eapply Qlt_le_trans; [apply two_pow_pos | exact Hlo]).
  destruct (Qlog2_spec a Ha) as [Hlo' Hhi'].
  assert (H1 : (e < Qlog2 a + 1)%Z).
  { apply (Qpower_lt_compat_l_inv 2); [|reflexivity].
    eapply Qle_lt_trans; [exact Hlo | exact Hhi']. }
  assert (H2 : (Qlog2 a < e + 1)%Z).
  { apply (Qpower_lt_compat_l_inv 2); [|reflexivity].
    eapply Qle_lt_trans; [exact Hlo' | exact Hhi]. }
  lia.
Qed.

Lemma Qlog2_comp (a b : Q) : 0 < a -> a == b -> Qlog2 a = Qlog2 b.
Proof.
  intros Ha Hab. destruct (Qlog2_spec a Ha) as [Hlo Hhi].
  symmetry. apply Qlog2_unique; rewrite <- Hab; assumption.
Qed.

Lemma round_half_even_comp (m m' : Q) :
  m == m' -> round_half_even m = round_half_even m'.
Proof.
  intros H. unfold round_half_even. cbv zeta.
  rewrite (Qfloor_comp m m' H).
  assert (Hc : Qcompare (m - inject_Z (Qfloor m')) (1 # 2)
               = Qcompare (m' - inject_Z (Qfloor m')) (1 # 2)).
  { apply Qcompare_comp; [|reflexivity]. rewrite H. reflexivity. }
  rewrite Hc. reflexivity.
Qed.

Lemma Qabs_nonzero (q : Q) : ~ q == 0 -> 0 < Qabs q.
Proof.
  intros H. destruct (Qlt_le_dec 0 (Qabs q)) as [Hlt|Hle]; [exact Hlt|].
  exfalso. apply H. apply Qabs_Qle_condition in Hle. lra.
Qed.

Lemma Qeq_bool_false (q : Q) : ~ q == 0 -> Qeq_bool q 0 = false.
Proof.
  intros H. destruct (Qeq_bool q 0) eqn:E; [|reflexivity].
  exfalso. apply H. apply Qeq_bool_iff. exact E.
Qed.

Lemma round_float_comp (q q' : Q) :
  q == q' -> round_float q = round_float q'.
Proof.
  intros H. unfold round_float.
  assert (Hz : Qeq_bool q 0 = Qeq_bool q' 0).
  { destruct (Qeq_bool q 0) eqn:E, (Qeq_bool q' 0) eqn:E'; try reflexivity.
    - apply Qeq_bool_iff in E. rewrite H in E. apply Qeq_bool_iff in E.
      congruence.
    - apply Qeq_bool_iff in E'. rewrite <- H in E'. apply Qeq_bool_iff in E'.
      congruence. }
  rewrite <- Hz. destruct (Qeq_bool q 0) eqn:E; [reflexivity|].
  assert (Hq : ~ q == 0).
  { intros Hq. apply Qeq_bool_iff in Hq. congruence. }
  assert (Ha : Qabs q == Qabs q') by (rewrite H; reflexivity).
  cbv zeta.
  rewrite <- (Qlog2_comp (Qabs q) (Qabs q') (Qabs_nonzero q Hq) Ha).
  set (p := Z.max (Qlog2 (Qabs q) - 52) (-1074)).
  assert (Hm : Qabs q / 2 ^ p == Qabs q' / 2 ^ p) by (rewrite Ha; reflexivity).
  rewrite <- (round_half_even_comp _ _ Hm).
  assert (Hs : Qle_bool 0 q = Qle_bool 0 q').
  { destruct (Qle_bool 0 q) eqn:E1, (Qle_bool 0 q') eqn:E2; try reflexivity.
    - apply Qle_bool_iff in E1. rewrite H in E1. apply Qle_bool_iff in E1.
      congruence.
    - apply Qle_bool_iff in E2. rewrite <- H in E2. apply Qle_bool_iff in E2.
      congruence. }
  rewrite <- Hs. reflexivity.
Qed.

(** The rounded number is a multiple of the spacing [2 ^ p] of the floats
    around [q], at most [2 ^ 53] times it, and differs from [q] by at most
    half the spacing. *)
Lemma round_float_nearest (q : Q) :
  ~ q == 0 ->
  let p := Z.max (Qlog2 (Qabs q) - 52) (-1074) in
  (exists k : Z, round_float q == inject_Z k * 2 ^ p /\
                 (Z.abs k <= 2 ^ 53)%Z) /\
  Qabs (round_float q - q) <= (1 # 2) * 2 ^ p.
Proof.
  intros Hq p. unfold round_float. rewrite (Qeq_bool_false q Hq). cbv zeta.
  fold p. set (a := Qabs q). set (k := round_half_even (a / 2 ^ p)).
  pose proof (two_pow_pos p) as Hp.
  pose proof (round_half_even_spec (a / 2 ^ p)) as Hk. fold k in Hk.
  assert (Ha : 0 < a) by (apply Qabs_nonzero; exact Hq).
  destruct (Qlog2_spec a Ha) as [_ Hhi].
  assert (Hm : a / 2 ^ p < 2 ^ 53).
  { apply Qlt_shift_div_r; [exact Hp|].
    eapply Qlt_le_trans; [exact Hhi|].
    rewrite <- Qpower_plus by discriminate.
    apply Qpower_le_compat_l; [unfold p, a; lia | discriminate]. }
  assert (Hm0 : 0 < a / 2 ^ p) by (apply Qlt_shift_div_l; [exact Hp | lra]).
  assert (Hk53 : (Z.abs k <= 2 ^ 53)%Z).
  { apply Qabs_Qle_condition in Hk. destruct Hk as [Hk1 Hk2].
    revert Hk1 Hk2 Hm Hm0. generalize (a / 2 ^ p). intros m Hk1 Hk2 Hm Hm0.
    assert (H1 : inject_Z (-1) < inject_Z k).
    { change (inject_Z (-1)) with (-1 # 1). lra. }
    assert (H2 : inject_Z k < inject_Z (2 ^ 53 + 1)).
    { change (inject_Z (2 ^ 53 + 1)) with (2 ^ 53 + 1). lra. }
    rewrite <- Zlt_Qlt in H1, H2. lia. }
  assert (Hv : Qabs (inject_Z k * 2 ^ p - a) <= (1 # 2) * 2 ^ p).
  { setoid_replace (inject_Z k * 2 ^ p - a)
      with ((inject_Z k - a / 2 ^ p) * 2 ^ p) using relation Qeq
      by (field; intros H0; rewrite H0 in Hp; discriminate).
    rewrite Qabs_Qmult. rewrite (Qabs_pos (2 ^ p)) by lra.
    apply Qmult_le_compat_r; [exact Hk | lra]. }
  destruct (Qle_bool 0 q) eqn:Es.
  - apply Qle_bool_iff in Es.
    assert (Haq : a == q) by (unfold a; apply Qabs_pos; exact Es).
    split; [exists k; split; [apply Qred_correct | exact Hk53]|].
    rewrite Qred_correct, <- Haq. exact Hv.
  - assert (Hneg : q <= 0).
    { apply Qlt_le_weak, Qnot_le_lt. intros H. apply Qle_bool_iff in H.
      congruence. }
    assert (Haq : a == - q) by (unfold a; apply Qabs_neg; exact Hneg).
    split.
    + exists (- k)%Z. split; [|lia].
      rewrite Qred_correct, inject_Z_opp. ring.
    + rewrite Qred_correct.
      setoid_replace (- (inject_Z k * 2 ^ p) - q)
        with (- (inject_Z k * 2 ^ p - a)) using relation Qeq
        by (rewrite Haq; ring).
      rewrite Qabs_opp. exact Hv.
Qed.

(** Above the subnormal range the relative error of a rounding is at most
    [2 ^ -53]. *)
Lemma round_float_relative (q : Q) :
  2 ^ (-1022) <= Qabs q ->
  Qabs (round_float q - q) <= Qabs q * 2 ^ (-53).
Proof.
  intros Hn.
  assert (Ha : 0 < Qabs q).
  { eapply Qlt_le_trans; [apply (two_pow_pos (-1022)) | exact Hn]. }
  assert (Hq : ~ q == 0).
  { intros H. rewrite H in Ha. discriminate. }
  destruct (round_float_nearest q Hq) as [_ Hb]. cbv zeta in Hb.
  destruct (Qlog2_spec (Qabs q) Ha) as [Hlo Hhi].
  assert (He : (-1022 < Qlog2 (Qabs q) + 1)%Z).
  { apply (Qpower_lt_compat_l_inv 2); [|reflexivity].
    eapply Qle_lt_trans; [exact Hn | exact Hhi]. }
  rewrite Z.max_l in Hb by lia.
  eapply Qle_trans; [exact Hb|].
  replace (Qlog2 (Qabs q) - 52)%Z with (Qlog2 (Qabs q) + (-52))%Z by lia.
  rewrite Qpower_plus by discriminate.
  assert (H52 : 2 ^ (-52) == 2 * 2 ^ (-53)) by (vm_compute; reflexivity).
  setoid_replace ((1 # 2) * (2 ^ Qlog2 (Qabs q) * 2 ^ (-52)))
    with (2 ^ Qlog2 (Qabs q) * 2 ^ (-53)) using relation Qeq
    by (rewrite H52; ring).
  apply Qmult_le_compat_r; [exact Hlo | discriminate].
Qed.

(** X23: a column with a single present value, a float, averages to that
    value: adding it to 0 and dividing it by 1 round to the value itself. *)
Theorem single_reading_average (values : list (option Q)) (v : Q) :
  is_float v -> present values = [v] ->
  opt_Qeq (_safe_avg values) (Some v).
Proof.
  unfold is_float. intros Hv Hp. unfold _safe_avg. rewrite Hp.
  cbn [opt_Qeq length py_sum fold_left]. unfold float_div, float_add.
  rewrite (round_float_comp (0 + v) v) by ring.
  rewrite (round_float_comp (round_float v / inject_Z (Z.of_nat 1)) v).
  - exact Hv.
  - rewrite Hv. change (inject_Z (Z.of_nat 1)) with 1. field.
Qed.

Lemma single_reading_average_witness :
  is_float (float_literal (301 # 10)) /\
  opt_Qeq (_safe_avg [None; Some (float_literal (301 # 10))])
          (Some (float_literal (301 # 10))).
Proof.
  assert (Hf : is_float (float_literal (301 # 10)))
    by (vm_compute; reflexivity).
  split; [exact Hf|].
  apply (single_reading_average [None; Some (float_literal (301 # 10))]
           (float_literal (301 # 10)) Hf).
  reflexivity.
Defined.

(** ** The aggregates as numbers *)

Lemma _safe_max_Permutation (v v' : list (option Q)) :
  v ≡ₚ v' -> opt_Qeq (_safe_max v) (_safe_max v').
Proof.
  intros Hp. pose proof (_safe_max_spec v) as H.
  pose proof (_safe_max_spec v') as H'. unfold opt_Qeq.
  assert (Hin : forall x, x ∈ v <-> x ∈ v') by (intros x; by rewrite Hp).
  destruct (_safe_max v) as [m|], (_safe_max v') as [m'|];
    cbn [max_of_present] in *.
  - destruct H as [Hm Hge], H' as [Hm' Hge'].
    apply Qle_antisym; [apply Hge' | apply Hge]; by apply Hin.
  - destruct H as [Hm _]. apply Hin in Hm.
    by apply (proj1 (Forall_forall _ _) H') in Hm.
  - destruct H' as [Hm' _]. apply Hin in Hm'.
    by apply (proj1 (Forall_forall _ _) H) in Hm'.
  - done.
Qed.

(** X16: the max aggregate of a column does not depend on the order in
    which the store returns the rows: on any reordering of the rows it is
    null or not together with the original, and equal to it as a number. *)
Theorem max_ignores_row_order (rows rows' : list Row) (col : string) :
  rows ≡ₚ rows' ->
  opt_Qeq (_safe_max (column col rows)) (_safe_max (column col rows')).
Proof.
  intros Hp. apply _safe_max_Permutation.
  unfold column. by apply Permutation_map.
Qed.

Lemma max_ignores_row_order_witness :
  sample_rows ≡ₚ sample_rows_reversed /\
  opt_Qeq (_safe_max (column "spl" sample_rows))
          (_safe_max (column "spl" sample_rows_reversed)) /\
  _safe_max (column "spl" sample_rows_reversed) = Some 75%Q.
Proof.
  assert (Hp : sample_rows ≡ₚ sample_rows_reversed)
    by (unfold sample_rows_reversed; by rewrite reverse_Permutation).
  split; [exact Hp|]. split; [|vm_compute; reflexivity].
  apply (max_ignores_row_order sample_rows sample_rows_reversed "spl" Hp).
Defined.

(** X15: the average aggregate is not bounded by the values it averages.
    On three rows that all read the float [30.1], [_safe_avg] returns the
    float [30.100000000000005], the rounded sum [90.30000000000001] divided
    by 3, which is above [_safe_max] of the same column, [30.1]. *)
Theorem average_may_exceed_maximum :
  let values := column "leq_1s" steady_rows in
  _safe_avg values = Some (float_literal (30100000000000005 # 10 ^ 15)) /\
  _safe_max values = Some (float_literal (301 # 10)) /\
  (float_literal (301 # 10) < float_literal (30100000000000005 # 10 ^ 15))%Q.
Proof.
  cbv zeta. split; [vm_compute; reflexivity|].
  split; [vm_compute; reflexivity|]. vm_compute. reflexivity.
Qed.


(** ** The evaluator on annotated facts *)

(** X17: the annotation a fact already carries never leaks into a new
    evaluation: evaluating an annotated fact, against the same or another
    configuration, gives what evaluating the original fact gives, so
    evaluating twice is evaluating once. *)
Theorem evaluation_overwrites_annotation (f : Fact) (c c' : Config) :
  check_levels_and_bands (fst (check_levels_and_bands f c)) c'
  = check_levels_and_bands f c'.
Proof.
  unfold check_levels_and_bands.
  destruct (String.eqb (src f) "UMIK") eqn:Hu; cbn [fst src spl_max lmax_max
    leq_1s_avg leq_60s_last leq_avg bands_max ts_from ts_to];
    rewrite ?Hu; [done|].
  destruct (String.eqb (src f) "ANALOG") eqn:Ha; cbn [fst src spl_max
    lmax_max leq_1s_avg leq_60s_last leq_avg bands_max ts_from ts_to];
    by rewrite ?Hu, ?Ha.
Qed.

(** ** The two payload builders *)

(** The notifier's payload, key by key. *)
Lemma _event_to_payload_entries (ev : Event) (c : Config) :
  _event_to_payload ev c =
  ([ ("type", PType (ev_type ev));
     ("src", PText (ev_src ev));
     ("ts_first", PFloat (ev_ts_first ev));
     ("ts_last", PFloat (ev_ts_last ev));
     ("thresholds", PThresholds (ev_thresholds ev));
     ("exceeded", PExceeded (ev_exceeded_levels ev) (ev_exceeded_bands ev)) ]
   ++ (if include_levels (notify c)
       then [("levels", PValues (ev_levels ev))] else [])
   ++ (if include_spectrum (notify c)
       then [("octaves", PValues (ev_octaves ev))] else [])
   ++ [ ("samples", PInt (ev_samples ev));
        ("window_sec", PFloat (ev_window_sec ev)) ])%list.
Proof.
  unfold _event_to_payload.
  by destruct (include_levels (notify c)), (include_spectrum (notify c)).
Qed.

(** Case analysis on a symbolic key against the literal keys of a payload. *)
Ltac key_cases k :=
  repeat match goal with
         | |- context [String.eqb ?s k] =>
             destruct (String.eqb_spec s k) as [<-|?];
               [first [congruence | reflexivity]|cbv iota]
         end.

(** X18: the payload the notifier builds and the one [format_event] builds
    hold the same value under every key other than "octaves", each key at
    most once; under "octaves" they agree iff spectra are not included or the
    event is of the spectrum source: for any other source with spectra
    included the notifier's payload carries the octaves dictionary and the
    formatter's does not. *)
Theorem payload_builders_agree (ev : Event) (c : Config) :
  (forall k, k <> "octaves" ->
     payload_get k (_event_to_payload ev c)
     = payload_get k (format_event ev c)) /\
  (payload_get "octaves" (_event_to_payload ev c)
   = payload_get "octaves" (format_event ev c) <->
   include_spectrum (notify c) = false \/ ev_src ev = "UMIK") /\
  NoDup (map fst (_event_to_payload ev c)) /\
  NoDup (map fst (format_event ev c)).
Proof.
  rewrite _event_to_payload_entries. unfold format_event.
  destruct (include_levels (notify c)), (include_spectrum (notify c)),
    (String.eqb_spec (ev_src ev) "UMIK") as [Hs|Hs];
    cbn [andb app map fst].
  all: split; [intros k Hk; cbn [payload_get]; key_cases k; reflexivity|].
  all: split; [split; [intros H; first [by left | by right | discriminate]
                      | intros [H|H]; first [reflexivity | discriminate
                                            | congruence]]
              |].
  all: split; apply (bool_decide_unpack _); vm_compute; exact I.
Qed.

Lemma exceeds_weaken (thr thr' val : option Q) :
  (forall t', thr' = Some t' -> exists t, thr = Some t /\ (t <= t')%Q) ->
  exceeds thr' val -> exceeds thr val.
Proof.
  intros Hw (t' & v & Ht' & Hv & Hlt).
  destruct (Hw t' Ht') as (t & Ht & Hle).
  exists t, v. split_and!; [done | done |]. by apply (Qle_lt_trans _ t').
Qed.

(** X19: raising or removing thresholds never creates an exceedance: if
    every threshold of [c'] is also set in [c] and no higher there, a fact
    that exceeds under [c'] exceeds under [c], level by level, band by band
    and overall. *)
Theorem exceedance_monotone_in_thresholds (f : Fact) (c c' : Config) :
  no_stricter c' c ->
  (forall lvl,
     exceeded_levels (fst (check_levels_and_bands f c')) !! lvl = Some true ->
     exceeded_levels (fst (check_levels_and_bands f c)) !! lvl = Some true) /\
  (forall band,
     exceeded_bands (fst (check_levels_and_bands f c')) !! band = Some true ->
     exceeded_bands (fst (check_levels_and_bands f c)) !! band = Some true) /\
  (exceeding (fst (check_levels_and_bands f c')) = true ->
   exceeding (fst (check_levels_and_bands f c)) = true).
Proof.
  intros [Hlv Hbd].
  destruct (true_entries_hold f c) as [Hl Hb].
  destruct (true_entries_hold f c') as [Hl' Hb'].
  assert (HL : forall lvl,
     exceeded_levels (fst (check_levels_and_bands f c')) !! lvl = Some true ->
     exceeded_levels (fst (check_levels_and_bands f c)) !! lvl = Some true).
  { intros lvl H. apply Hl. apply Hl' in H.
    eapply exceeds_weaken; [|exact H]. apply Hlv. }
  assert (HB : forall band,
     exceeded_bands (fst (check_levels_and_bands f c')) !! band = Some true ->
     exceeded_bands (fst (check_levels_and_bands f c)) !! band = Some true).
  { intros band H. apply Hb. apply Hb' in H.
    eapply exceeds_weaken; [|exact H]. apply Hbd. }
  split; [exact HL|]. split; [exact HB|].
  intros He. apply (flag_hold f c). apply (flag_hold f c') in He.
  destruct He as [[lvl He]|[band He]]; [left|right]; eauto.
Qed.

Lemma exceedance_monotone_in_thresholds_witness :
  no_stricter lax_config sample_config /\
  exceeding (fst (check_levels_and_bands very_loud_fact lax_config)) = true /\
  exceeding (fst (check_levels_and_bands very_loud_fact sample_config))
    = true.
Proof.
  assert (Hn : no_stricter lax_config sample_config).
  { split.
    - intros s lvl t'. unfold level_threshold.
      destruct (String.eqb s "UMIK");
        [|by destruct (String.eqb s "ANALOG"), (String.eqb lvl "spl"),
               (String.eqb lvl "leq"), (String.eqb lvl "lmax")].
      destruct (String.eqb lvl "spl").
      + intros [= <-]. exists 70%Q. split; [reflexivity | discriminate].
      + by destruct (String.eqb lvl "leq_1s"), (String.eqb lvl "leq_60s"),
             (String.eqb lvl "lmax").
    - intros s band t'. unfold band_threshold.
      destruct (String.eqb s "UMIK"); [|done].
      cbn [lax_config umik_thr_bands]. by rewrite lookup_empty. }
  assert (He : exceeding
                 (fst (check_levels_and_bands very_loud_fact lax_config))
               = true) by (vm_compute; reflexivity).
  split; [exact Hn|]. split; [exact He|].
  by apply (exceedance_monotone_in_thresholds very_loud_fact sample_config
              lax_config Hn).
Defined.

(** ** Cooldown and retrigger gap over whole runs *)

Lemma step_alert_enters_cooldown (sm : StateMachine) (t1 t2 : Q)
    (fact : Fact) (th : ThresholdsView) :
  is_alert (snd (step sm t1 t2 fact th)) = true ->
  state (fst (step sm t1 t2 fact th)) = COOLDOWN /\
  last_transition (fst (step sm t1 t2 fact th)) = t1.
Proof.
  intros Ha. destruct (step_alert_facts sm t1 t2 fact th Ha) as (Hs & _).
  destruct (fires sm t1 t2 fact) eqn:Hf.
  - destruct (step_normal_fires sm t1 t2 fact th Hs Hf)
      as (sm' & ev & -> & _ & Hst & Hlt & _). done.
  - by rewrite (step_normal_quiet sm t1 t2 fact th Hs Hf) in Ha.
Qed.

(** From COOLDOWN, an ALERT can only come after a call made at least
    [cooldown_ms] after the cooldown began. *)
Lemma cooldown_holds (inputs : list StepInput) (sm : StateMachine)
    (j : nat) (o : Q * option Event) :
  state sm = COOLDOWN ->
  snd (run_steps sm inputs) !! j = Some o -> is_alert (snd o) = true ->
  exists k ik, (k < j)%nat /\ inputs !! k = Some ik /\
    (inject_Z (cooldown_ms (sm_cfg sm))
       <= (si_t1 ik - last_transition sm) * 1000)%Q.
Proof.
  revert sm j. induction inputs as [|i inputs IH]; intros sm j Hs; [done|].
  cbn [run_steps]. unfold step_in.
  rewrite (step_cooldown sm (si_t1 i) (si_t2 i) (si_fact i) (si_thresholds i)
             Hs).
  destruct (Qgeb _ _) eqn:He.
  - destruct (run_steps _ inputs) as [sm'' out]. cbn [snd].
    destruct j as [|j]; [by intros [= <-]|]. intros _ _.
    exists O, i. split_and!; [lia | done | by apply Qgeb_true].
  - specialize (IH (update_counters sm (exceeding (si_fact i)) (si_t1 i))).
    destruct (run_steps _ inputs) as [sm'' out]. cbn [snd] in *.
    destruct j as [|j]; [by intros [= <-]|]. intros Ho Ha.
    destruct (IH j) as (k & ik & Hk & Hik & Hle);
      [by rewrite update_counters_state | exact Ho | exact Ha |].
    rewrite update_counters_cfg in Hle.
    assert (Hlt : last_transition
                    (update_counters sm (exceeding (si_fact i)) (si_t1 i))
                  = last_transition sm) by (by destruct (exceeding _)).
    rewrite Hlt in Hle. exists (S k), ik. split_and!; [lia | done | done].
Qed.

(** X20: between two ALERTs of a run there is always a call made at least
    [cooldown_ms] after the first of them, by the clock readings of the
    calls: the cooldown is never cut short. *)
Theorem cooldown_separates_alerts (inputs : list StepInput)
    (sm : StateMachine) (i j : nat) (ii : StepInput)
    (o o' : Q * option Event) :
  settled sm -> (i < j)%nat ->
  inputs !! i = Some ii ->
  snd (run_steps sm inputs) !! i = Some o ->
  snd (run_steps sm inputs) !! j = Some o' ->
  is_alert (snd o) = true -> is_alert (snd o') = true ->
  exists k ik, (i < k < j)%nat /\ inputs !! k = Some ik /\
    (inject_Z (cooldown_ms (sm_cfg sm)) <= (si_t1 ik - si_t1 ii) * 1000)%Q.
Proof.
  revert sm i j. induction inputs as [|inp inputs IH]; intros sm i j Hsm Hij;
    [done|].
  cbn [run_steps]. unfold step_in.
  destruct (step_settled sm (si_t1 inp) (si_t2 inp) (si_fact inp)
              (si_thresholds inp) Hsm) as [Hs' _].
  pose proof (step_alert_enters_cooldown sm (si_t1 inp) (si_t2 inp)
                (si_fact inp) (si_thresholds inp)) as Hal.
  pose proof (step_cfg sm (si_t1 inp) (si_t2 inp) (si_fact inp)
                (si_thresholds inp)) as Hc.
  destruct (step sm (si_t1 inp) (si_t2 inp) (si_fact inp) (si_thresholds inp))
    as [sm' ev]. cbn [fst snd] in Hs', Hal, Hc.
  pose proof (cooldown_holds inputs sm') as Hcool.
  specialize (IH sm').
  destruct (run_steps sm' inputs) as [sm'' out]. cbn [snd] in *.
  destruct j as [|j]; [lia|]. destruct i as [|i].
  - intros [= <-] [= <-] Ho' Ha Ha'. cbn [snd] in Ha.
    destruct (Hal Ha) as [Hst Hlt].
    destruct (Hcool j o' Hst Ho' Ha') as (k & ik & Hk & Hik & Hle).
    rewrite Hlt, Hc in Hle. exists (S k), ik.
    split_and!; [lia | lia | done | done].
  - intros Hii Ho Ho' Ha Ha'.
    destruct (IH i j Hs' ltac:(lia) Hii Ho Ho' Ha Ha')
      as (k & ik & Hk & Hik & Hle).
    rewrite Hc in Hle. exists (S k), ik.
    split_and!; [lia | lia | done | done].
Qed.

Lemma cooldown_separates_alerts_witness :
  exists k ik, (0 < k < 3)%nat /\ sample_inputs !! k = Some ik /\
    (inject_Z (cooldown_ms sample_config) <= (si_t1 ik - 0) * 1000)%Q.
Proof.
  assert (Hi : sample_inputs !! 0%nat
               = Some {| si_t1 := 0; si_t2 := 0;
                         si_fact := loud_fact_checked;
                         si_thresholds := no_thresholds |})
    by reflexivity.
  destruct (snd (run_steps (StateMachine_init "UMIK" sample_config 0)
                           sample_inputs) !! 0%nat) as [o|] eqn:Ho;
    [|vm_compute in Ho; discriminate].
  destruct (snd (run_steps (StateMachine_init "UMIK" sample_config 0)
                           sample_inputs) !! 3%nat) as [o'|] eqn:Ho';
    [|vm_compute in Ho'; discriminate].
  assert (Ha : is_alert (snd o) = true).
  { vm_compute in Ho. injection Ho as <-. reflexivity. }
  assert (Ha' : is_alert (snd o') = true).
  { vm_compute in Ho'. injection Ho' as <-. reflexivity. }
  exact (cooldown_separates_alerts sample_inputs
           (StateMachine_init "UMIK" sample_config 0) 0 3 _ o o'
           (or_introl eq_refl) ltac:(lia) Hi Ho Ho' Ha Ha').
Defined.

Section PollAlert.

Variables (w : DeviceWorker) (env : PollEnv).

(** What a poll does to the machine's configuration and recorded time of
    the last ALERT. *)
Lemma poll_last_alert :
  sm_cfg (fsm (pr_worker (poll w env))) = sm_cfg (fsm w) /\
  if is_alert (pr_sent (poll w env)) then
    gap_ok (_last_alert_at_ms (fsm w)) (_now_ms (pe_t2 env))
           (retrigger_gap_ms (sm_cfg (fsm w))) = true /\
    _last_alert_at_ms (fsm (pr_worker (poll w env)))
      = Some (_now_ms (pe_t2 env))
  else _last_alert_at_ms (fsm (pr_worker (poll w env)))
       = _last_alert_at_ms (fsm w).
Proof.
  destruct (poll_cases w env) as [(_ & -> & -> & _)|(a & f & Hf & _)];
    [done|].
  destruct (poll_evaluated w env f Hf)
    as (a' & row & rows & _ & _ & _ & _ & _ & _ & _ & -> & ->).
  cbn [set_fsm fsm]. split; [apply step_cfg|].
  apply (step_last_alert (fsm w) (pe_t1 env) (pe_t2 env) f
           (thresholds_view w)).
Qed.

End PollAlert.

Lemma run_polls_spaced (envs : list PollEnv) (w : DeviceWorker) :
  spaced (retrigger_gap_ms (sm_cfg (fsm w))) (_last_alert_at_ms (fsm w))
         (sent_alert_times envs (snd (run_polls w envs))).
Proof.
  revert w. induction envs as [|e envs IH]; intros w; [done|].
  cbn [run_polls]. destruct (poll_last_alert w e) as [Hc Hl].
  specialize (IH (pr_worker (poll w e))).
  destruct (run_polls (pr_worker (poll w e)) envs) as [w' rs].
  cbn [snd sent_alert_times] in *.
  destruct (is_alert (pr_sent (poll w e))).
  - destruct Hl as [Hgap Hla]. cbn [spaced]. split.
    + apply gap_ok_true in Hgap as [->|(l & -> & Hle)]; done.
    + rewrite <- Hla, <- Hc. exact IH.
  - rewrite <- Hl, <- Hc. exact IH.
Qed.

(** X21: over any sequence of polls of one worker, each ALERT handed to the
    notifier comes at least [retrigger_gap_ms] after the one handed to it
    before. *)
Theorem worker_alerts_spaced (w : DeviceWorker) (envs : list PollEnv)
    (k : nat) (t t' : Q) :
  let times := sent_alert_times envs (snd (run_polls w envs)) in
  times !! k = Some t -> times !! S k = Some t' ->
  (inject_Z (retrigger_gap_ms (sm_cfg (fsm w))) <= t' - t)%Q.
Proof.
  intros times. subst times.
  apply (spaced_adjacent _ _ (_last_alert_at_ms (fsm w))), run_polls_spaced.
Qed.

Lemma worker_alerts_spaced_witness :
  sent_alert_times loud_polls (snd (run_polls fresh_worker loud_polls))
    = [10000; 16000]%Q /\
  (inject_Z (retrigger_gap_ms sample_config) <= 16000 - 10000)%Q.
Proof.
  assert (Ht : sent_alert_times loud_polls
                 (snd (run_polls fresh_worker loud_polls))
               = [10000; 16000]%Q) by (vm_compute; reflexivity).
  split; [exact Ht|].
  apply (worker_alerts_spaced fresh_worker loud_polls 0 10000 16000);
    by rewrite Ht.
Defined.
